(** * c2go, package [types]: casting between resolved type spellings

    A shallow embedding of [GetArrayTypeAndSize], [CastExpr] and [IsNullExpr]
    of the [types] package, with the small part of Go's [regexp], [strconv]
    and [go/ast] that these functions rely on.

    Go strings are byte sequences; they are modelled by [string], whose
    elements are the 256 values of [ascii].  Go's [int] is taken as the
    64-bit signed integer of the supported platforms and modelled in [Z]. *)

From Stdlib Require Import String Ascii List ZArith Lia Bool DecimalString.
Import ListNotations.

Local Open Scope string_scope.
Local Open Scope Z_scope.
Local Open Scope list_scope.

(* ------------------------------------------------------------------ *)
(** ** Outcomes of a Go call                                           *)
(* ------------------------------------------------------------------ *)

(** A Go call either returns its results or panics.  The panics that the
    modelled code can raise are listed by origin. *)
Inductive Panic : Type :=
| IndexOutOfRange (site : string)   (* s[i] with i outside of s *)
| TypeAssertion                     (* expr.( *goast.BasicLit) on another *)
| FailedToUnquote (value : string)  (* the explicit panic of CastExpr *)
| BadInteger (text : string).       (* util.Atoi on text strconv.Atoi rejects *)

Inductive Outcome (A : Type) : Type :=
| Returns (a : A)
| Panics (why : Panic).

Arguments Returns {A} a.
Arguments Panics {A} why.

(* ------------------------------------------------------------------ *)
(** ** Strings                                                         *)
(* ------------------------------------------------------------------ *)

Definition newline : ascii := "010"%char.
Definition dquote : ascii := "034"%char.

Definition is_digit (c : ascii) : bool :=
  let n := nat_of_ascii c in (Nat.leb 48 n && Nat.leb n 57)%bool.

(** Every byte of [s] satisfies [f]. *)
Fixpoint string_forall (f : ascii -> bool) (s : string) : bool :=
  match s with
  | EmptyString => true
  | String c s' => f c && string_forall f s'
  end.

(** A decimal number as the patterns' [\d+] reads it: one digit or more. *)
Definition is_decimal (s : string) : bool :=
  match s with
  | EmptyString => false
  | _ => string_forall is_digit s
  end.

(** [strings.Index(s, sep) != -1] for a one-byte separator. *)
Fixpoint contains_byte (c : ascii) (s : string) : bool :=
  match s with
  | EmptyString => false
  | String a s' => Ascii.eqb a c || contains_byte c s'
  end.

(** [strings.Split(s, sep)] for a one-byte separator: the pieces between
    the separators, in order; a string without separator is its own only
    piece. *)
Fixpoint Split (s : string) (sep : ascii) : list string :=
  match s with
  | EmptyString => [EmptyString]
  | String a s' =>
      if Ascii.eqb a sep then EmptyString :: Split s' sep
      else match Split s' sep with
           | [] => [String a EmptyString]
           | piece :: pieces => String a piece :: pieces
           end
  end.

(** [util.InStrings]: membership in a slice of strings. *)
Definition InStrings (item : string) (items : list string) : bool :=
  existsb (String.eqb item) items.

(* ------------------------------------------------------------------ *)
(** ** The fragment of Go's [regexp] used by the package               *)
(* ------------------------------------------------------------------ *)

(** The four patterns of the package are sequences of single bytes and of
    repeated byte classes, some of them inside a capturing group.  Matching
    is leftmost-first: the leftmost start wins, and among the matches at that
    start the one a backtracking matcher finds first, with greedy
    repetitions.  The patterns only name ASCII bytes, so matching bytes and
    matching UTF-8 runes agree on the texts captured. *)
Inductive CharClass : Type :=
| Byte (c : ascii)   (* a literal byte, escaped or not *)
| AnyChar            (* .   any byte but a line feed *)
| Digit.             (* \d  an ASCII digit *)

Inductive Piece : Type :=
| One (k : CharClass)
| Star (k : CharClass) (capture : bool)   (* k*  or (k* ) *)
| Plus (k : CharClass) (capture : bool).  (* k+  or (k+) *)

Definition Regexp : Type := list Piece.

Definition class_matches (k : CharClass) (c : ascii) : bool :=
  match k with
  | Byte b => Ascii.eqb c b
  | AnyChar => negb (Ascii.eqb c newline)
  | Digit => is_digit c
  end.

(** The text matched, and the texts of the capturing groups in order. *)
Definition Match : Type := (string * list string)%type.

Section Repetition.
Variable k : CharClass.
Variable rest : string -> option Match.

(** Greedy repetition of [k] followed by [rest]: take as many bytes as
    possible, giving back one at a time while [rest] fails.  Returns the
    text taken by the repetition and the match of [rest]. *)
Fixpoint repeat_greedy (s : string) : option (string * Match) :=
  let stop := option_map (pair EmptyString) (rest s) in
  match s with
  | EmptyString => stop
  | String c s' =>
      if class_matches k c then
        match repeat_greedy s' with
        | Some (taken, m) => Some (String c taken, m)
        | None => stop
        end
      else stop
  end.
End Repetition.

Definition with_group (capture : bool) (text : string) (groups : list string)
  : list string :=
  if capture then text :: groups else groups.

(** Match [re] at the start of [s]. *)
Fixpoint match_here (re : Regexp) (s : string) : option Match :=
  match re with
  | [] => Some (EmptyString, [])
  | One k :: re' =>
      match s with
      | EmptyString => None
      | String c s' =>
          if class_matches k c then
            match match_here re' s' with
            | Some (m, groups) => Some (String c m, groups)
            | None => None
            end
          else None
      end
  | Star k capture :: re' =>
      match repeat_greedy k (match_here re') s with
      | Some (taken, (m, groups)) =>
          Some ((taken ++ m)%string, with_group capture taken groups)
      | None => None
      end
  | Plus k capture :: re' =>
      match s with
      | EmptyString => None
      | String c s' =>
          if class_matches k c then
            match repeat_greedy k (match_here re') s' with
            | Some (taken, (m, groups)) =>
                Some (String c (taken ++ m)%string,
                      with_group capture (String c taken) groups)
            | None => None
            end
          else None
      end
  end.

(** [Regexp.FindStringSubmatch]: the leftmost match and its groups, the
    whole match first; the nil slice when nothing matches. *)
Fixpoint FindStringSubmatch (re : Regexp) (s : string) : list string :=
  match match_here re s with
  | Some (m, groups) => m :: groups
  | None =>
      match s with
      | EmptyString => []
      | String _ s' => FindStringSubmatch re s'
      end
  end.

(** A run of literal bytes of a pattern. *)
Fixpoint lit (s : string) : Regexp :=
  match s with
  | EmptyString => []
  | String c s' => One (Byte c) :: lit s'
  end.

(** [(.* ) \[(\d+)\]] *)
Definition re_sized_array : Regexp :=
  Star AnyChar true :: lit " [" ++ Plus Digit true :: lit "]".

(** [\[\]byte] *)
Definition re_byte_slice : Regexp := lit "[]byte".

(** [char \*\[(\d+)\]] *)
Definition re_char_ptr_array : Regexp :=
  lit "char *[" ++ Plus Digit true :: lit "]".

(** [\[(\d+)\]byte] *)
Definition re_byte_array : Regexp :=
  lit "[" ++ Plus Digit true :: lit "]byte".

(** [match[i]]: indexing a slice outside of its length panics. *)
Definition index (site : string) (l : list string) (i : nat)
  : Outcome string :=
  match nth_error l i with
  | Some x => Returns x
  | None => Panics (IndexOutOfRange site)
  end.

(* ------------------------------------------------------------------ *)
(** ** [strconv] and [util.Atoi]                                       *)
(* ------------------------------------------------------------------ *)

Definition maxInt : Z := 2 ^ 63 - 1.
Definition minInt : Z := - 2 ^ 63.

Definition digit_value (c : ascii) : Z := Z.of_nat (nat_of_ascii c) - 48.

Fixpoint decimal_value (acc : Z) (s : string) : option Z :=
  match s with
  | EmptyString => Some acc
  | String c s' =>
      if is_digit c then decimal_value (10 * acc + digit_value c) s'
      else None
  end.

(** [strconv.Atoi]: an optional sign, then decimal digits, within [int];
    [None] stands for its error. *)
Definition strconv_Atoi (s : string) : option Z :=
  let '(negative, digits) :=
    match s with
    | String "-" s' => (true, s')
    | String "+" s' => (false, s')
    | _ => (false, s)
    end in
  match digits with
  | EmptyString => None
  | _ =>
      match decimal_value 0 digits with
      | None => None
      | Some v =>
          let v := if negative then - v else v in
          if (minInt <=? v) && (v <=? maxInt) then Some v else None
      end
  end.

(** [strconv.Itoa]. *)
Definition Itoa (i : Z) : string := NilZero.string_of_int (Z.to_int i).

(** Modelled from the spec: [util.Atoi] is not under src/.  The spec reads the
    sizes of array spellings as decimal numbers; the helper is taken as
    [strconv.Atoi] that panics where [strconv.Atoi] reports an error. *)
Definition Atoi (s : string) : Outcome Z :=
  match strconv_Atoi s with
  | Some v => Returns v
  | None => Panics (BadInteger s)
  end.

(* ------------------------------------------------------------------ *)
(** ** [GetArrayTypeAndSize]                                           *)
(* ------------------------------------------------------------------ *)

(** Returns the size and type of a fixed array; the empty string and -1 when
    the pattern finds nothing. *)
Definition GetArrayTypeAndSize (s : string) : Outcome (string * Z) :=
  let match_ := FindStringSubmatch re_sized_array s in
  if Nat.ltb 0 (length match_) then
    match index "match[1]" match_ 1 with
    | Panics why => Panics why
    | Returns elem =>
        match index "match[2]" match_ 2 with
        | Panics why => Panics why
        | Returns size =>
            match Atoi size with
            | Panics why => Panics why
            | Returns n => Returns (elem, n)
            end
        end
    end
  else Returns (EmptyString, -1).

(* ------------------------------------------------------------------ *)
(** ** [go/token] and [go/ast]                                         *)
(* ------------------------------------------------------------------ *)

(** The tokens the package builds nodes with. *)
Inductive Token : Type := INT | FLOAT | CHAR | STRING | NEQ | NOT.

(** The expression nodes of [go/ast] that the package reads or builds; an
    absent (nil) child is [None]. *)
#[warnings="-register-all"]
Inductive Expr : Type :=
| Ident (Name : string)
| BasicLit (Kind : Token) (Value : string)
| ParenExpr (X : Expr)
| UnaryExpr (Op : Token) (X : Expr)
| BinaryExpr (X : Expr) (Op : Token) (Y : Expr)
| CallExpr (Fun : Expr) (Args : list Expr)
| SliceExpr (X : Expr) (Low High Max : option Expr) (Slice3 : bool)
| ArrayType (Len : option Expr) (Elt : Expr)
| CompositeLit (Type_ : option Expr) (Elts : list Expr).

(** A Go [error] value, by its message. *)
Definition error : Type := string.

(** Modelled from the spec: the helpers of package [util] that build nodes are
    not under src/.  Each is the plain [go/ast] node of its name: the spec
    calls their results [nil], [false], [0], [to(e)] and so on.  Only the
    float constant 0.0 is ever built, so [NewFloatLit] takes an integral
    value, printed without a fraction as the shortest float format does. *)
Definition NewIdent (name : string) : Expr := Ident name.
Definition NewTypeIdent (name : string) : Expr := Ident name.
Definition NewNil : Expr := NewIdent "nil".
Definition NewIntLit (value : Z) : Expr := BasicLit INT (Itoa value).
Definition NewFloatLit (value : Z) : Expr := BasicLit FLOAT (Itoa value).
Definition NewStringLit (value : string) : Expr := BasicLit STRING value.
Definition NewUnaryExpr (operator : Token) (right : Expr) : Expr :=
  UnaryExpr operator right.
Definition NewCallExpr (functionName : string) (args : list Expr) : Expr :=
  CallExpr (NewIdent functionName) args.

(** [IsNullExpr] tries to determine if the expression is the result of the
    NULL macro: a parenthesised literal [0]. *)
Definition IsNullExpr (n : Expr) : bool :=
  match n with
  | ParenExpr (BasicLit _ Value) => String.eqb Value "0"
  | _ => false
  end.

(* ------------------------------------------------------------------ *)
(** ** The Program Context                                             *)
(* ------------------------------------------------------------------ *)

(** Modelled from the spec: [program.Program] is not under src/.  Of the
    Program Context the spec lists, the casts touch the table from type names
    to resolved spellings (through the resolver) and the set of runtime
    import paths. *)
Record Program : Type := mkProgram {
  typedefs : list (string * string);
  imports : list string
}.

(** Modelled from the spec: [Program.AddImport] is not under src/.  The
    imports are a set that only grows: a path already present is not added
    again. *)
Definition AddImport (importPath : string) (p : Program) : Program :=
  if InStrings importPath (imports p) then p
  else mkProgram (typedefs p) (imports p ++ [importPath]).

Definition noarch_path : string := "github.com/elliotchance/c2go/noarch".

(* ------------------------------------------------------------------ *)
(** ** [CastExpr]                                                      *)
(* ------------------------------------------------------------------ *)

Infix "==" := String.eqb (at level 70, no associativity).

(** Compatible integer types: the table [types] of [CastExpr]. *)
Definition types : list string :=
  [ (* Integer types *)
    "byte";
    "int"; "int8"; "int16"; "int32"; "int64";
    "uint8"; "uint16"; "uint32"; "uint64";
    (* Floating-point types. *)
    "float32"; "float64";
    (* Known aliases *)
    "__uint16_t"; "size_t";
    (* Darwin specific *)
    "__darwin_ct_rune_t"; "darwin.CtRuneT" ].

(** The loop over [types]: the first entry that equals [fromType], the
    target being [bool], returns the comparison with 0. *)
Fixpoint range_types (vs : list string) (expr : Expr)
    (fromType toType : string) : option Expr :=
  match vs with
  | [] => None
  | v :: vs' =>
      if (fromType == v) && (toType == "bool")
      then Some (BinaryExpr expr NEQ (NewIntLit 0))
      else range_types vs' expr fromType toType
  end.

(** The name after the last dot, as [CastExpr] computes [leftName] and
    [rightName]. *)
Definition strip_package (name : string) : string :=
  if contains_byte "." name then
    let parts := Split name "." in
    nth (length parts - 1) parts EmptyString
  else name.

(** The parts of the repository and of Go's library that [CastExpr] calls
    and that are not under src/. *)
Record Collaborators : Type := mkCollaborators {
  (** [types.ResolveType]: the resolved spelling and an error, nil ([None])
      on success; it may update the Program Context. *)
  ResolveType : Program -> string -> Program * (string * option error);
  (** [util.GetExportedName]: the exported form of a type name. *)
  GetExportedName : string -> string;
  (** [strconv.Unquote]; [None] stands for its error. *)
  Unquote : string -> option string;
  (** [fmt.Sprintf("%q", c)] for a byte [c]: its character literal. *)
  QuoteByte : ascii -> string
}.

(** Both spellings resolve without error, the source in [p] and then the
    target in the context the first resolution leaves. *)
Definition resolve_both (env : Collaborators) (p : Program)
    (fromType toType : string) (p' : Program)
    (resolvedFrom resolvedTo : string) : Prop :=
  exists p1,
    ResolveType env p fromType = (p1, (resolvedFrom, None))
    /\ ResolveType env p1 toType = (p', (resolvedTo, None)).

Definition Result : Type := (Program * Outcome (Expr * option error))%type.

Definition ret (p : Program) (e : Expr) : Result := (p, Returns (e, None)).

(** [CastExpr] from its line 80 on: the rules on the resolved spellings. *)
Definition cast_rules (env : Collaborators) (p : Program) (expr : Expr)
    (fromType toType : string) : Result :=
  if (fromType == "null") && (toType == "[][]byte") then ret p NewNil else
  if (fromType == "null") && (toType == "float64") then
    ret p (NewFloatLit 0) else
  if (fromType == "null") && (toType == "bool") then
    ret p (NewIdent "false") else
  (* FIXME: This is a hack to avoid casting in some situations. *)
  if (fromType == "") || (toType == "") then ret p expr else
  if (fromType == "null") && (toType == "[]byte") then ret p NewNil else
  (* This if for linux. *)
  if (fromType == "*_IO_FILE") && (toType == "*noarch.File") then
    ret p expr else
  if fromType == toType then ret p expr else
  match range_types types expr fromType toType with
  | Some comparison => ret p comparison
  | None =>
  (* string -> []byte, string -> char *[13] *)
  let match1 := FindStringSubmatch re_byte_slice toType in
  let match2 := FindStringSubmatch re_char_ptr_array toType in
  if (fromType == "string")
     && (Nat.ltb 0 (length match1) || Nat.ltb 0 (length match2)) then
    match expr with
    | BasicLit _ Value =>
        match Unquote env Value with
        | None => (p, Panics (FailedToUnquote Value))
        | Some strValue =>
            ret p (CompositeLit
                     (Some (ArrayType None (NewTypeIdent "byte")))
                     (map (fun c => BasicLit CHAR (QuoteByte env c))
                          (list_ascii_of_string strValue)
                      ++ [NewIntLit 0]))
        end
    | _ => (p, Panics TypeAssertion)
    end
  else
  (* [7]byte -> string, char *[12] -> string *)
  let match1 := FindStringSubmatch re_byte_array fromType in
  let match2 := FindStringSubmatch re_char_ptr_array fromType in
  if (Nat.ltb 0 (length match1) || Nat.ltb 0 (length match2))
     && (toType == "string") then
    let digits :=
      if Nat.ltb 0 (length match1) then index "match1[1]" match1 1
      else index "match2[1]" match2 1 in
    match digits with
    | Panics why => (p, Panics why)
    | Returns text =>
        match Atoi text with
        | Panics why => (p, Panics why)
        | Returns size =>
            (* string(expr[:size - 1]) *)
            ret p (NewCallExpr "string"
                     [SliceExpr expr None (Some (NewIntLit (size - 1)))
                                None false])
        end
    end
  else
  (* Anything that is a pointer can be compared to nil *)
  match String.get 0 fromType with
  | None => (p, Panics (IndexOutOfRange "fromType[0]"))
  | Some first =>
  if Ascii.eqb first "*" && (toType == "bool") then
    ret p (BinaryExpr expr NEQ NewNil) else
  if (fromType == "[]byte") && (toType == "bool") then
    ret p (NewUnaryExpr NOT (NewCallExpr "noarch.CStringIsNull" [expr])) else
  if (fromType == "int") && (toType == "*int") then ret p NewNil else
  if (fromType == "int") && (toType == "*byte") then
    ret p (NewStringLit (String dquote (String dquote EmptyString))) else
  if (fromType == "_Bool") && (toType == "bool") then ret p expr else
  if InStrings fromType types && InStrings toType types then
    ret p (NewCallExpr toType [expr]) else
  let p := AddImport noarch_path p in
  let leftName := strip_package fromType in
  let rightName := strip_package toType in
  let functionName :=
    ("noarch." ++ GetExportedName env leftName
               ++ "To" ++ GetExportedName env rightName)%string in
  ret p (NewCallExpr functionName [expr])
  end
  end.

(** [CastExpr] returns an expression that casts one type to another. *)
Definition CastExpr (env : Collaborators) (p : Program) (expr : Expr)
    (fromType toType : string) : Result :=
  (* Let's assume that anything can be converted to a void pointer. *)
  if toType == "void *" then ret p expr else
  let '(p, (fromType, err)) := ResolveType env p fromType in
  match err with
  | Some _ => (p, Returns (expr, err))
  | None =>
      let '(p, (toType, err)) := ResolveType env p toType in
      match err with
      | Some _ => (p, Returns (expr, err))
      | None => cast_rules env p expr fromType toType
      end
  end.

(* ------------------------------------------------------------------ *)
(** ** Concrete collaborators to run the casts on                      *)
(* ------------------------------------------------------------------ *)

(** The spellings of the spec's examples with their resolved spellings,
    and the resolved spellings that [CastExpr] itself names, which resolve to
    themselves (resolution is idempotent). *)
Definition sample_spellings : list (string * string) :=
  [ ("int", "int"); ("int *", "*int"); ("double", "float64");
    ("float", "float32"); ("_Bool", "bool"); ("char *", "[]byte");
    ("char **", "[][]byte"); ("char [6]", "[6]byte");
    ("struct Foo *", "*Foo"); ("FILE *", "*noarch.File"); ("void", "");
    ("null", "null"); ("string", "string"); ("bool", "bool");
    ("[]byte", "[]byte"); ("[6]byte", "[6]byte");
    ("char *[12]", "char *[12]"); ("Foo", "Foo"); ("pkg.Bar", "pkg.Bar") ].

Fixpoint lookup (key : string) (table : list (string * string))
  : option string :=
  match table with
  | [] => None
  | (k, v) :: table' => if key == k then Some v else lookup key table'
  end.

(** A resolver over [sample_spellings]: it leaves the Program Context as it
    is and fails on every other spelling. *)
Definition sample_ResolveType (p : Program) (s : string)
  : Program * (string * option error) :=
  match lookup s sample_spellings with
  | Some resolved => (p, (resolved, None))
  | None => (p, ("interface{}", Some ("cannot resolve type " ++ s)%string))
  end.

(** Exported casing on ASCII: a leading lower-case letter is raised. *)
Definition sample_GetExportedName (name : string) : string :=
  match name with
  | EmptyString => EmptyString
  | String c name' =>
      let n := nat_of_ascii c in
      if Nat.leb 97 n && Nat.leb n 122
      then String (ascii_of_nat (n - 32)) name'
      else name
  end.

(** The body of an interpreted string literal up to its closing quote, with
    the escapes for line feed, tab, backslash and double quote. *)
Fixpoint unescape (s : string) : option string :=
  match s with
  | EmptyString => None
  | String c EmptyString =>
      if Ascii.eqb c dquote then Some EmptyString else None
  | String "\" (String e s') =>
      let byte :=
        if Ascii.eqb e "n" then Some newline
        else if Ascii.eqb e "t" then Some "009"%char
        else if Ascii.eqb e "\" then Some "\"%char
        else if Ascii.eqb e dquote then Some dquote
        else None in
      match byte, unescape s' with
      | Some b, Some text => Some (String b text)
      | _, _ => None
      end
  | String c s' =>
      if Ascii.eqb c dquote || Ascii.eqb c newline then None
      else option_map (String c) (unescape s')
  end.

(** Unquoting of the double-quoted literals over those escapes. *)
Definition sample_Unquote (s : string) : option string :=
  match s with
  | String c s' => if Ascii.eqb c dquote then unescape s' else None
  | EmptyString => None
  end.

(** The character literal of a byte: the line feed and the NUL escaped,
    another byte between single quotes. *)
Definition sample_QuoteByte (c : ascii) : string :=
  if Ascii.eqb c newline then "'\n'"
  else if Ascii.eqb c zero then "'\x00'"
  else String "'" (String c "'").

(** The collaborators the casts are run with below. *)
Definition sample : Collaborators :=
  mkCollaborators sample_ResolveType sample_GetExportedName sample_Unquote
                  sample_QuoteByte.

Definition sample_CastExpr : Program -> Expr -> string -> string -> Result :=
  CastExpr sample.

Definition empty_program : Program := mkProgram [] [].



(** The expression of the NULL macro, [(0)]. *)
Definition null_expr : Expr := ParenExpr (BasicLit INT "0").

(** A string literal node with the given text between double quotes. *)
Definition string_lit (body : string) : Expr :=
  BasicLit STRING (String dquote (body ++ String dquote EmptyString)).

(** What a pattern denotes: the texts it matches in full, with the texts of
    its groups.  The matcher is checked against it below. *)
Inductive denotes : Regexp -> string -> list string -> Prop :=
| denotes_end : denotes [] EmptyString []
| denotes_one k c re m groups :
    class_matches k c = true ->
    denotes re m groups ->
    denotes (One k :: re) (String c m) groups
| denotes_star k capture re taken m groups :
    string_forall (class_matches k) taken = true ->
    denotes re m groups ->
    denotes (Star k capture :: re) (taken ++ m)%string
            (with_group capture taken groups)
| denotes_plus k capture re c taken m groups :
    string_forall (class_matches k) (String c taken) = true ->
    denotes re m groups ->
    denotes (Plus k capture :: re) (String c (taken ++ m)%string)
            (with_group capture (String c taken) groups).

(** [s] holds a sized suffix [ [N]] somewhere: what the unanchored pattern
    of [GetArrayTypeAndSize] looks for. *)
Definition has_sized_part (s : string) : Prop :=
  exists before N after,
    is_decimal N = true /\ s = (before ++ " [" ++ N ++ "]" ++ after)%string.

(** The spelling [T [N]], the whole of it, with [N] a decimal number. *)
Definition sized_array_spelling (s T N : string) : Prop :=
  is_decimal N = true /\ s = (T ++ " [" ++ N ++ "]")%string.

(** The panics of [CastExpr] that stand for a conversion it refuses. *)
Definition refusal (why : Panic) : bool :=
  match why with
  | IndexOutOfRange _ => false
  | TypeAssertion | FailedToUnquote _ | BadInteger _ => true
  end.

(** [s[0] == c], false on the empty string. *)
Definition first_byte_is (c : ascii) (s : string) : bool :=
  match String.get 0 s with
  | Some first => Ascii.eqb first c
  | None => false
  end.

(** The guards of the rules of [CastExpr] that come before its fallback, on
    the resolved spellings. *)
Definition earlier_rule (fromType toType : string) : bool :=
  (fromType == "null") && (toType == "[][]byte")
  || (fromType == "null") && (toType == "float64")
  || (fromType == "null") && (toType == "bool")
  || ((fromType == "") || (toType == ""))
  || (fromType == "null") && (toType == "[]byte")
  || (fromType == "*_IO_FILE") && (toType == "*noarch.File")
  || (fromType == toType)
  || InStrings fromType types && (toType == "bool")
  || (fromType == "string")
       && (Nat.ltb 0 (length (FindStringSubmatch re_byte_slice toType))
           || Nat.ltb 0 (length (FindStringSubmatch re_char_ptr_array toType)))
  || (Nat.ltb 0 (length (FindStringSubmatch re_byte_array fromType))
      || Nat.ltb 0 (length (FindStringSubmatch re_char_ptr_array fromType)))
       && (toType == "string")
  || first_byte_is "*" fromType && (toType == "bool")
  || (fromType == "[]byte") && (toType == "bool")
  || (fromType == "int") && (toType == "*int")
  || (fromType == "int") && (toType == "*byte")
  || (fromType == "_Bool") && (toType == "bool")
  || InStrings fromType types && InStrings toType types.

(** The name of the shim the fallback calls. *)
Definition shim_name (env : Collaborators) (fromType toType : string)
  : string :=
  ("noarch." ++ GetExportedName env (strip_package fromType)
             ++ "To" ++ GetExportedName env (strip_package toType))%string.

(** A result without error, or a refusal in one of the two rules between
    strings and byte sequences. *)
Definition no_error (fromType toType : string)
    (r : Outcome (Expr * option error)) : Prop :=
  match r with
  | Returns (_, err) => err = None
  | Panics why =>
      refusal why = true /\ (fromType = "string" \/ toType = "string")
  end.

(** The expression of a result is the one given, or it is no expression of
    the NULL macro. *)
Definition keeps_or_builds (expr : Expr) (r : Outcome (Expr * option error))
  : Prop :=
  match r with
  | Returns (e', _) => e' = expr \/ IsNullExpr e' = false
  | Panics _ => True
  end.

(* ------------------------------------------------------------------ *)
(** ** Package [ast]: three kinds of node                              *)
(* ------------------------------------------------------------------ *)

Section Nodes.

(** [ast.Node], the interface of the nodes, is not under src/: what a node
    holds as children is left open. *)
Variable Node : Type.

(** [groupsFromRegex] is not under src/: from a pattern and a line of the
    dump it gives the named groups of the match, a Go map read here as a
    function that is the empty string on a missing name; it may panic. *)
Variable groupsFromRegex : string -> string -> Outcome (string -> string).

Record Typedef : Type := mkTypedef {
  Typedef_Address : string;
  Typedef_Type : string;
  Typedef_Children : list Node
}.

Definition parseTypedef (line : string) : Outcome Typedef :=
  match groupsFromRegex ("'(?P<type>." ++ "*)'") line with
  | Panics why => Panics why
  | Returns groups => Returns (mkTypedef (groups "address") (groups "type") [])
  end.

(** [AddChild] adds a new child node, after the children there are. *)
Definition Typedef_AddChild (n : Typedef) (node : Node) : Typedef :=
  mkTypedef (Typedef_Address n) (Typedef_Type n)
            (Typedef_Children n ++ [node]).

Record IncompleteArrayType : Type := mkIncompleteArrayType {
  IncompleteArrayType_Address : string;
  IncompleteArrayType_Type : string;
  IncompleteArrayType_Children : list Node
}.

Definition parseIncompleteArrayType (line : string)
  : Outcome IncompleteArrayType :=
  match groupsFromRegex ("'(?P<type>." ++ "*)' ") line with
  | Panics why => Panics why
  | Returns groups =>
      Returns (mkIncompleteArrayType (groups "address") (groups "type") [])
  end.

Definition IncompleteArrayType_AddChild (n : IncompleteArrayType)
    (node : Node) : IncompleteArrayType :=
  mkIncompleteArrayType (IncompleteArrayType_Address n)
                        (IncompleteArrayType_Type n)
                        (IncompleteArrayType_Children n ++ [node]).

Record MaxFieldAlignmentAttr : Type := mkMaxFieldAlignmentAttr {
  MaxFieldAlignmentAttr_Address : string;
  MaxFieldAlignmentAttr_Position : string;
  MaxFieldAlignmentAttr_Size : Z;
  MaxFieldAlignmentAttr_Children : list Node
}.

Definition parseMaxFieldAlignmentAttr (line : string)
  : Outcome MaxFieldAlignmentAttr :=
  match groupsFromRegex
          ("<(?P<position>." ++ "*)> Implicit (?P<size>\d*)") line with
  | Panics why => Panics why
  | Returns groups =>
      match Atoi (groups "size") with
      | Panics why => Panics why
      | Returns size =>
          Returns (mkMaxFieldAlignmentAttr (groups "address")
                     (groups "position") size [])
      end
  end.

Definition MaxFieldAlignmentAttr_AddChild (n : MaxFieldAlignmentAttr)
    (node : Node) : MaxFieldAlignmentAttr :=
  mkMaxFieldAlignmentAttr (MaxFieldAlignmentAttr_Address n)
                          (MaxFieldAlignmentAttr_Position n)
                          (MaxFieldAlignmentAttr_Size n)
                          (MaxFieldAlignmentAttr_Children n ++ [node]).

End Nodes.

Arguments Typedef_Address {Node} _.
Arguments Typedef_Type {Node} _.
Arguments Typedef_Children {Node} _.
Arguments Typedef_AddChild {Node} n node.
Arguments IncompleteArrayType_Address {Node} _.
Arguments IncompleteArrayType_Type {Node} _.
Arguments IncompleteArrayType_Children {Node} _.
Arguments IncompleteArrayType_AddChild {Node} n node.
Arguments MaxFieldAlignmentAttr_Address {Node} _.
Arguments MaxFieldAlignmentAttr_Position {Node} _.
Arguments MaxFieldAlignmentAttr_Size {Node} _.
Arguments MaxFieldAlignmentAttr_Children {Node} _.
Arguments MaxFieldAlignmentAttr_AddChild {Node} n node.

(** Groups to run the decoders on: those of a line of the dump such as
    [0x7f8 <line:4:1> Implicit 8] or [0x7f8 'int'], whatever the line. *)
Definition sample_groupsFromRegex (pattern line : string)
  : Outcome (string -> string) :=
  Returns (fun name =>
             if name == "address" then "0x7f8"
             else if name == "type" then "int"
             else if name == "position" then "line:4:1"
             else if name == "size" then "8"
             else EmptyString).

(* ================================================================== *)
(** * Properties                                                       *)
(* ================================================================== *)

(** ** Strings and bytes *)

Lemma append_assoc (a b c : string) :
  ((a ++ b) ++ c = a ++ (b ++ c))%string.
Proof.
  induction a as [|x a IH]; simpl; [reflexivity|now rewrite IH].
Qed.

Lemma append_empty_r (a : string) : (a ++ EmptyString)%string = a.
Proof.
  induction a as [|x a IH]; simpl; [reflexivity|now rewrite IH].
Qed.

Lemma string_forall_app f a b :
  string_forall f (a ++ b) = string_forall f a && string_forall f b.
Proof.
  induction a as [|x a IH]; simpl; [reflexivity|].
  now rewrite IH, andb_assoc.
Qed.

Lemma is_decimal_digits N :
  is_decimal N = true -> string_forall is_digit N = true.
Proof. destruct N; simpl; [discriminate|trivial]. Qed.

Lemma is_decimal_cons N :
  is_decimal N = true ->
  exists d N', N = String d N' /\ is_digit d = true
               /\ string_forall is_digit N' = true.
Proof.
  destruct N as [|d N']; simpl; [discriminate|].
  intros H. apply andb_prop in H. destruct H. eauto.
Qed.

(** A digit is none of the other bytes the patterns name. *)
Lemma digit_not_punct c :
  is_digit c = true ->
  Ascii.eqb c " " = false /\ Ascii.eqb c "[" = false
  /\ Ascii.eqb c "]" = false /\ Ascii.eqb c newline = false.
Proof.
  destruct c as [[] [] [] [] [] [] [] []]; vm_compute; intros H;
    try discriminate H; repeat split.
Qed.

(** ** Decimal numbers *)

Lemma decimal_value_nonneg s :
  forall acc v, 0 <= acc -> decimal_value acc s = Some v -> 0 <= v.
Proof.
  induction s as [|c s IH]; cbn [decimal_value]; intros acc v Hacc.
  - intros H. injection H as <-. exact Hacc.
  - destruct (is_digit c) eqn:Hc; [|discriminate].
    apply IH. unfold digit_value, is_digit in *.
    apply andb_prop in Hc. destruct Hc as [Hc _]. apply Nat.leb_le in Hc. lia.
Qed.

Lemma strconv_Atoi_digits d s :
  is_digit d = true ->
  strconv_Atoi (String d s)
  = match decimal_value 0 (String d s) with
    | None => None
    | Some v => if (minInt <=? v) && (v <=? maxInt) then Some v else None
    end.
Proof.
  intros H.
  destruct d as [[] [] [] [] [] [] [] []]; vm_compute in H;
    try discriminate H; reflexivity.
Qed.

(** The size read in a decimal number is never negative. *)
Lemma Atoi_decimal N size :
  is_decimal N = true -> Atoi N = Returns size -> 0 <= size.
Proof.
  intros HN. destruct (is_decimal_cons N HN) as (d & N' & -> & Hd & _).
  unfold Atoi. rewrite (strconv_Atoi_digits d N' Hd).
  destruct (decimal_value 0 (String d N')) as [v|] eqn:E; [|discriminate].
  destruct ((minInt <=? v) && (v <=? maxInt)); [|discriminate].
  intros H. injection H as <-.
  now apply (decimal_value_nonneg (String d N') 0 v).
Qed.

(** ** The matcher *)

Section RepetitionFacts.
Variable k : CharClass.
Variable rest : string -> option Match.

(** Bytes of the class in front of a text on which the repetition succeeds
    are all taken by it. *)
Lemma repeat_greedy_prefix x s taken m :
  string_forall (class_matches k) x = true ->
  repeat_greedy k rest s = Some (taken, m) ->
  repeat_greedy k rest (x ++ s) = Some ((x ++ taken)%string, m).
Proof.
  induction x as [|c x IH]; simpl; intros Hx Hs; [exact Hs|].
  apply andb_prop in Hx. destruct Hx as [Hc Hx].
  now rewrite Hc, (IH Hx Hs).
Qed.

(** In front of a byte outside of the class, or at the end of the text,
    the repetition takes nothing. *)
Lemma repeat_greedy_stop s :
  match s with
  | EmptyString => True
  | String c _ => class_matches k c = false
  end ->
  repeat_greedy k rest s = option_map (pair EmptyString) (rest s).
Proof.
  destruct s as [|c s]; simpl; [reflexivity|]. now intros ->.
Qed.

(** The repetition fails on a text on which [rest] fails everywhere. *)
Lemma repeat_greedy_none s :
  (forall a b, s = (a ++ b)%string -> rest b = None) ->
  repeat_greedy k rest s = None.
Proof.
  induction s as [|c s IH]; intros H; simpl.
  - now rewrite (H EmptyString EmptyString eq_refl).
  - rewrite IH.
    + rewrite (H EmptyString (String c s) eq_refl). simpl.
      now destruct (class_matches k c).
    + intros a b ->. apply (H (String c a) b). reflexivity.
Qed.

Variable P : string -> list string -> Prop.
Hypothesis rest_sound :
  forall s m groups, rest s = Some (m, groups) ->
                     P m groups /\ exists t, s = (m ++ t)%string.

Lemma repeat_greedy_sound s taken m groups :
  repeat_greedy k rest s = Some (taken, (m, groups)) ->
  string_forall (class_matches k) taken = true
  /\ P m groups /\ exists t, s = (taken ++ m ++ t)%string.
Proof.
  revert taken.
  assert (Hstop : forall s taken,
             option_map (pair EmptyString) (rest s)
             = Some (taken, (m, groups)) ->
             string_forall (class_matches k) taken = true
             /\ P m groups /\ exists t, s = (taken ++ m ++ t)%string).
  { intros s0 taken H. destruct (rest s0) as [[m0 g0]|] eqn:E; [|discriminate].
    simpl in H. injection H as <- <- <-.
    destruct (rest_sound _ _ _ E) as [HP Ht]. now repeat split. }
  induction s as [|c s IH]; intros taken; simpl.
  - apply Hstop.
  - destruct (class_matches k c) eqn:Hc; [|apply (Hstop (String c s))].
    destruct (repeat_greedy k rest s) as [[taken' m']|] eqn:E;
      [|apply (Hstop (String c s))].
    intros H. injection H as <- ->.
    destruct (IH _ eq_refl) as (Hall & HP & t & ->).
    simpl. rewrite Hc, Hall. repeat split; trivial. now exists t.
Qed.
End RepetitionFacts.

(** The matcher only reports what the pattern denotes, found at the start of
    the text. *)
Lemma match_here_sound re :
  forall s m groups,
    match_here re s = Some (m, groups) ->
    denotes re m groups /\ exists t, s = (m ++ t)%string.
Proof.
  induction re as [|piece re IH]; intros s m groups; simpl.
  - intros H. injection H as <- <-. split; [constructor|now exists s].
  - destruct piece as [k|k capture|k capture].
    + destruct s as [|c s]; [discriminate|].
      destruct (class_matches k c) eqn:Hc; [|discriminate].
      destruct (match_here re s) as [[m' g']|] eqn:E; [|discriminate].
      intros H. injection H as <- <-.
      destruct (IH _ _ _ E) as [Hd [t ->]].
      split; [now constructor|now exists t].
    + destruct (repeat_greedy k (match_here re) s) as [[taken [m' g']]|] eqn:E;
        [|discriminate].
      intros H. injection H as <- <-.
      destruct (repeat_greedy_sound k (match_here re) (denotes re) IH s _ _ _ E)
        as (Hall & Hd & t & ->).
      split; [now constructor|]. exists t. now rewrite append_assoc.
    + destruct s as [|c s]; [discriminate|].
      destruct (class_matches k c) eqn:Hc; [|discriminate].
      destruct (repeat_greedy k (match_here re) s) as [[taken [m' g']]|] eqn:E;
        [|discriminate].
      intros H. injection H as <- <-.
      destruct (repeat_greedy_sound k (match_here re) (denotes re) IH s _ _ _ E)
        as (Hall & Hd & t & ->).
      split.
      * constructor; [simpl; now rewrite Hc|exact Hd].
      * exists t. simpl. now rewrite append_assoc.
Qed.

(** [FindStringSubmatch] returns nil or a match of the pattern inside the
    text, the whole match first. *)
Lemma FindStringSubmatch_sound re s :
  FindStringSubmatch re s = []
  \/ exists m groups before after,
       FindStringSubmatch re s = m :: groups
       /\ denotes re m groups
       /\ s = (before ++ m ++ after)%string.
Proof.
  induction s as [|c s IH]; simpl.
  - destruct (match_here re EmptyString) as [[m g]|] eqn:E; [right|now left].
    destruct (match_here_sound re _ _ _ E) as [Hd [t Ht]].
    exists m, g, EmptyString, t. auto.
  - destruct (match_here re (String c s)) as [[m g]|] eqn:E.
    + right. destruct (match_here_sound re _ _ _ E) as [Hd [t Ht]].
      exists m, g, EmptyString, t. auto.
    + destruct IH as [IH|(m & g & a & b & H1 & H2 & ->)]; [now left|right].
      exists m, g, (String c a), b. auto.
Qed.

Lemma FindStringSubmatch_here re s m groups :
  match_here re s = Some (m, groups) ->
  FindStringSubmatch re s = m :: groups.
Proof. intros H. destruct s; simpl; now rewrite H. Qed.

Lemma FindStringSubmatch_skip re c s :
  match_here re (String c s) = None ->
  FindStringSubmatch re (String c s) = FindStringSubmatch re s.
Proof. intros H. simpl FindStringSubmatch at 1. simpl in H. now rewrite H. Qed.

(** The matcher finds a match wherever the pattern denotes one. *)
Lemma repeat_greedy_complete k rest taken s :
  string_forall (class_matches k) taken = true ->
  rest s <> None ->
  repeat_greedy k rest (taken ++ s) <> None.
Proof.
  intros Ht Hs. induction taken as [|c taken IH]; simpl.
  - destruct s as [|c s]; simpl.
    + now destruct (rest EmptyString).
    + destruct (class_matches k c);
        [destruct (repeat_greedy k rest s) as [[]|]; [discriminate|]|];
        now destruct (rest (String c s)).
  - simpl in Ht. apply andb_prop in Ht. destruct Ht as [-> Ht].
    destruct (repeat_greedy k rest (taken ++ s)) as [[]|];
      [discriminate|now destruct (IH Ht)].
Qed.

Lemma match_here_complete re m groups :
  denotes re m groups -> forall t, match_here re (m ++ t) <> None.
Proof.
  induction 1 as [|k c re m groups Hc _ IH
                  |k capture re taken m groups Ht _ IH
                  |k capture re c taken m groups Ht _ IH]; intros t; simpl.
  - discriminate.
  - rewrite Hc. specialize (IH t).
    now destruct (match_here re (m ++ t)) as [[]|].
  - rewrite append_assoc.
    pose proof (repeat_greedy_complete k (match_here re) taken (m ++ t)
                  Ht (IH t)) as H.
    now destruct (repeat_greedy k (match_here re) (taken ++ m ++ t))
      as [[? []]|].
  - simpl in Ht. apply andb_prop in Ht. destruct Ht as [-> Ht].
    rewrite append_assoc.
    pose proof (repeat_greedy_complete k (match_here re) taken (m ++ t)
                  Ht (IH t)) as H.
    now destruct (repeat_greedy k (match_here re) (taken ++ m ++ t))
      as [[? []]|].
Qed.

Lemma FindStringSubmatch_complete re m groups before after :
  denotes re m groups ->
  FindStringSubmatch re (before ++ m ++ after) <> [].
Proof.
  intros Hd. pose proof (match_here_complete re m groups Hd after) as Hm.
  induction before as [|c before IH]; simpl.
  - destruct (match_here re (m ++ after)) as [[]|] eqn:E; [|contradiction].
    rewrite (FindStringSubmatch_here re _ _ _ E). discriminate.
  - destruct (match_here re (String c (before ++ m ++ after))) as [[]|];
      [discriminate|exact IH].
Qed.

(** The number of capturing groups of a pattern. *)
Lemma denotes_groups re m groups :
  denotes re m groups ->
  length groups
  = length (filter (fun piece => match piece with
                                 | One _ => false
                                 | Star _ capture | Plus _ capture => capture
                                 end) re).
Proof.
  induction 1 as [|? ? ? ? ? ? ? IH|? capture ? ? ? ? ? ? IH
                  |? capture ? ? ? ? ? ? ? IH]; simpl; trivial;
    destruct capture; simpl; now rewrite IH.
Qed.

(** A match of a pattern with one group has that group at index 1. *)
Lemma index_of_match site re s :
  length (filter (fun piece => match piece with
                               | One _ => false
                               | Star _ capture | Plus _ capture => capture
                               end) re) = 1%nat ->
  Nat.ltb 0 (length (FindStringSubmatch re s)) = true ->
  exists text, index site (FindStringSubmatch re s) 1 = Returns text.
Proof.
  intros Hre Hlen.
  destruct (FindStringSubmatch_sound re s)
    as [E|(m & g & _ & _ & E & Hd & _)]; rewrite E in *; [discriminate|].
  apply denotes_groups in Hd. rewrite Hre in Hd.
  destruct g as [|text g]; [discriminate|]. now exists text.
Qed.

(** Literal bytes of a pattern match themselves. *)
Lemma match_here_lit l re s :
  match_here (lit l ++ re) (l ++ s)
  = match match_here re s with
    | Some (m, groups) => Some ((l ++ m)%string, groups)
    | None => None
    end.
Proof.
  induction l as [|c l IH]; simpl.
  - now destruct (match_here re s) as [[m g]|].
  - rewrite Ascii.eqb_refl, IH. now destruct (match_here re s) as [[m g]|].
Qed.

(** [(\d+)] in front of a byte that is no digit takes the whole number. *)
Lemma match_here_number re N t m groups :
  is_decimal N = true ->
  match t with
  | EmptyString => True
  | String c _ => is_digit c = false
  end ->
  match_here re t = Some (m, groups) ->
  match_here (Plus Digit true :: re) (N ++ t)
  = Some ((N ++ m)%string, N :: groups).
Proof.
  intros HN Ht Hre.
  destruct (is_decimal_cons N HN) as (d & N' & -> & Hd & HN').
  simpl. rewrite Hd.
  rewrite (repeat_greedy_prefix Digit (match_here re) N' t EmptyString
             (m, groups) HN').
  - now rewrite append_empty_r.
  - rewrite repeat_greedy_stop by exact Ht. now rewrite Hre.
Qed.

(** [(\d+)] fails when what follows the digits is not what the pattern
    continues with. *)
Lemma match_here_number_none re N t :
  string_forall is_digit N = true ->
  (forall a b, (N ++ t)%string = (a ++ b)%string -> match_here re b = None) ->
  match_here (Plus Digit true :: re) (N ++ t) = None.
Proof.
  intros HN H. destruct N as [|d N']; simpl.
  - destruct t as [|c t]; [reflexivity|].
    destruct (is_digit c); [|reflexivity].
    rewrite repeat_greedy_none; [reflexivity|].
    intros a b ->. apply (H (String c a) b). reflexivity.
  - simpl in HN. apply andb_prop in HN. destruct HN as [-> _].
    rewrite repeat_greedy_none; [reflexivity|].
    intros a b E. apply (H (String d a) b). simpl. now rewrite E.
Qed.

Lemma string_forall_suffix f s a b :
  string_forall f s = true -> s = (a ++ b)%string -> string_forall f b = true.
Proof.
  intros H ->. rewrite string_forall_app in H. now apply andb_prop in H.
Qed.

(** The pattern of [GetArrayTypeAndSize] on a spelling [T [N]]. *)
Lemma match_here_sized_array T N :
  string_forall (class_matches AnyChar) T = true ->
  is_decimal N = true ->
  match_here re_sized_array (T ++ " [" ++ N ++ "]")
  = Some ((T ++ " [" ++ N ++ "]")%string, [T; N]).
Proof.
  intros HT HN.
  set (K := lit " [" ++ Plus Digit true :: lit "]").
  assert (HK : match_here K (" [" ++ N ++ "]")
               = Some ((" [" ++ N ++ "]")%string, [N])).
  { unfold K. rewrite (match_here_lit " [").
    now rewrite (match_here_number (lit "]") N "]" "]" [] HN). }
  assert (Hin : repeat_greedy AnyChar (match_here K) (" [" ++ N ++ "]")
                = Some (EmptyString, ((" [" ++ N ++ "]")%string, [N]))).
  { change (" [" ++ N ++ "]")%string with (String " " ("[" ++ N ++ "]")) at 1.
    cbn [repeat_greedy class_matches]. 
    replace (negb (Ascii.eqb " " newline)) with true by reflexivity.
    rewrite repeat_greedy_none.
    - change (String " " ("[" ++ N ++ "]"))%string
        with (" [" ++ N ++ "]")%string.
      now rewrite HK.
    - intros a b E.
      assert (Hb : string_forall (fun c => negb (Ascii.eqb c " ")) b = true).
      { apply (string_forall_suffix _ ("[" ++ N ++ "]")%string a b); [|exact E].
        simpl. rewrite string_forall_app. simpl.
        rewrite andb_true_r.
        apply is_decimal_digits in HN. clear -HN.
        induction N as [|d N IH]; simpl in *; [reflexivity|].
        apply andb_prop in HN. destruct HN as [Hd HN].
        destruct (digit_not_punct d Hd) as (-> & _). simpl. now apply IH. }
      unfold K. destruct b as [|c b]; simpl; [reflexivity|].
      simpl in Hb. apply andb_prop in Hb. destruct Hb as [Hc _].
      apply negb_true_iff in Hc. now rewrite Hc. }
  change re_sized_array with (Star AnyChar true :: K).
  cbn [match_here].
  rewrite (repeat_greedy_prefix AnyChar (match_here K) T _ _ _ HT Hin).
  now rewrite append_empty_r.
Qed.

(** What the pattern of [GetArrayTypeAndSize] denotes. *)
Lemma denotes_sized_array m groups :
  denotes re_sized_array m groups ->
  exists T N, is_decimal N = true
              /\ m = (T ++ " [" ++ N ++ "]")%string /\ groups = [T; N].
Proof.
  unfold re_sized_array. simpl. intros H.
  inversion H as [| | ? ? ? T m1 g1 HT H1 |]; subst; clear H.
  inversion H1 as [| ? ? ? m2 g2 Hc2 H2 | |]; subst; clear H1.
  inversion H2 as [| ? ? ? m3 g3 Hc3 H3 | |]; subst; clear H2.
  inversion H3 as [| | | ? ? ? d N' m4 g4 HN H4]; subst; clear H3.
  inversion H4 as [| ? ? ? m5 g5 Hc5 H5 | |]; subst; clear H4.
  inversion H5; subst; clear H5.
  simpl in Hc2, Hc3, Hc5.
  apply Ascii.eqb_eq in Hc2, Hc3, Hc5. subst.
  exists T, (String d N'). repeat split; trivial.
Qed.

(** The suffixes of a number followed by a closing bracket. *)
Lemma number_bracket_suffix N a b :
  string_forall is_digit N = true ->
  (N ++ "]")%string = (a ++ b)%string ->
  b = EmptyString \/ b = "]"
  \/ exists d b', b = String d b' /\ is_digit d = true.
Proof.
  revert a. induction N as [|d N IH]; intros a HN E; simpl in *.
  - destruct a as [|c a]; simpl in E; [now right; left|].
    injection E as _ E. destruct a; [|discriminate]. simpl in E. now left.
  - apply andb_prop in HN. destruct HN as [Hd HN].
    destruct a as [|c a]; simpl in E.
    + right; right. subst b. eauto.
    + injection E as _ E. now apply (IH a).
Qed.

(** The patterns of the byte-sequence rules on the spellings the rules are
    documented with. *)
Lemma find_byte_array N :
  is_decimal N = true ->
  FindStringSubmatch re_byte_array ("[" ++ N ++ "]byte")
  = [("[" ++ N ++ "]byte")%string; N].
Proof.
  intros HN. apply FindStringSubmatch_here.
  unfold re_byte_array. rewrite (match_here_lit "[").
  now rewrite (match_here_number (lit "]byte") N "]byte" "]byte" [] HN).
Qed.

Lemma find_char_ptr_array N :
  is_decimal N = true ->
  FindStringSubmatch re_char_ptr_array ("char *[" ++ N ++ "]")
  = [("char *[" ++ N ++ "]")%string; N].
Proof.
  intros HN. apply FindStringSubmatch_here.
  unfold re_char_ptr_array. rewrite (match_here_lit "char *[").
  now rewrite (match_here_number (lit "]") N "]" "]" [] HN).
Qed.

Lemma find_byte_array_in_char_ptr_array N :
  is_decimal N = true ->
  FindStringSubmatch re_byte_array ("char *[" ++ N ++ "]") = [].
Proof.
  intros HN. apply is_decimal_digits in HN.
  change ("char *[" ++ N ++ "]")%string
    with (String "c" (String "h" (String "a" (String "r" (String " "
           (String "*" (String "[" (N ++ "]")))))))).
  do 6 (rewrite FindStringSubmatch_skip by reflexivity).
  rewrite FindStringSubmatch_skip.
  - induction N as [|d N IH]; [reflexivity|].
    simpl in HN. apply andb_prop in HN. destruct HN as [Hd HN].
    change (String d N ++ "]")%string with (String d (N ++ "]")).
    rewrite FindStringSubmatch_skip; [now apply IH|].
    simpl. destruct (digit_not_punct d Hd) as (_ & -> & _). reflexivity.
  - change (String "[" (N ++ "]")) with ("[" ++ (N ++ "]"))%string.
    unfold re_byte_array. rewrite (match_here_lit "[").
    rewrite match_here_number_none; trivial.
    intros a b E.
    destruct (number_bracket_suffix N a b HN E) as [->|[->|(d & b' & -> & Hd)]];
      try reflexivity.
    simpl. destruct (digit_not_punct d Hd) as (_ & _ & -> & _). reflexivity.
Qed.

(** ** The table of numeric types *)


Lemma range_types_some vs e fromType toType :
  InStrings fromType vs && (toType == "bool") = true ->
  range_types vs e fromType toType = Some (BinaryExpr e NEQ (NewIntLit 0)).
Proof.
  intros H. apply andb_prop in H. destruct H as [Hin Hb].
  induction vs as [|v vs IH]; simpl in *; [discriminate|].
  rewrite Hb, andb_true_r.
  destruct (fromType == v); [reflexivity|]. now apply IH.
Qed.

Lemma range_types_none vs e fromType toType :
  InStrings fromType vs && (toType == "bool") = false ->
  range_types vs e fromType toType = None.
Proof.
  intros H. induction vs as [|v vs IH]; simpl in *; [reflexivity|].
  destruct (toType == "bool") eqn:Hb.
  - rewrite andb_true_r in H. apply orb_false_elim in H.
    destruct H as [H1 H2]. rewrite H1. apply IH.
    rewrite ?Hb, ?andb_true_r. exact H2.
  - rewrite andb_false_r. apply IH. rewrite ?Hb. apply andb_false_r.
Qed.

(** ** Package prefixes *)



Lemma Split_no_sep s sep :
  contains_byte sep s = false -> Split s sep = [s].
Proof.
  induction s as [|c s IH]; simpl; [reflexivity|]. intros H.
  apply orb_false_elim in H. destruct H as [-> H]. now rewrite (IH H).
Qed.



(** ** [GetArrayTypeAndSize] *)

(** An evaluation of the pattern on the spelling of a two-dimensional array:
    the first size is found although the spelling does not end with it. *)
Example GetArrayTypeAndSize_two_dimensions :
  GetArrayTypeAndSize "int [2][3]" = Returns ("int", 2).
Proof. reflexivity. Qed.

Example GetArrayTypeAndSize_incomplete :
  GetArrayTypeAndSize "int []" = Returns (EmptyString, -1).
Proof. reflexivity. Qed.

Lemma append_split (a b c d : string) :
  (a ++ b = c ++ d)%string ->
  (exists x, c = (a ++ x)%string /\ b = (x ++ d)%string)
  \/ (exists x, a = (c ++ x)%string /\ d = (x ++ b)%string).
Proof.
  revert c. induction a as [|u a IH]; intros c E; simpl in *.
  - left. now exists c.
  - destruct c as [|v c]; simpl in *.
    + right. now exists (String u a).
    + injection E as <- E. destruct (IH c E) as [(x & -> & ->)|(x & -> & ->)];
        [left|right]; now exists x.
Qed.

Lemma has_sized_part_denotes s :
  has_sized_part s <->
  exists m groups before after,
    denotes re_sized_array m groups /\ s = (before ++ m ++ after)%string.
Proof.
  split.
  - intros (before & N & after & HN & ->).
    destruct (is_decimal_cons N HN) as (d & N' & -> & Hd & HN').
    exists (" [" ++ String d N' ++ "]")%string, [EmptyString; String d N'],
      before, after.
    split; [|simpl; now rewrite append_assoc].
    apply (denotes_star AnyChar true _ EmptyString
             (" [" ++ String d N' ++ "]") [String d N']); [reflexivity|].
    apply (denotes_one (Byte " ") " "); [reflexivity|].
    apply (denotes_one (Byte "[") "["); [reflexivity|].
    apply (denotes_plus Digit true (lit "]") d N' "]" []);
      [simpl; now rewrite Hd|].
    apply (denotes_one (Byte "]") "]"); [reflexivity|constructor].
  - intros (m & groups & before & after & Hd & ->).
    destruct (denotes_sized_array m groups Hd) as (T & N & HN & -> & _).
    exists (before ++ T)%string, N, after. split; [exact HN|].
    now rewrite !append_assoc.
Qed.

(** The pattern finds nothing exactly in the spellings without sized part. *)
Lemma find_sized_array_nil s :
  FindStringSubmatch re_sized_array s = [] <-> ~ has_sized_part s.
Proof.
  rewrite has_sized_part_denotes. split.
  - intros E (m & groups & before & after & Hd & ->).
    now apply (FindStringSubmatch_complete re_sized_array m groups
                 before after).
  - intros H.
    destruct (FindStringSubmatch_sound re_sized_array s)
      as [E|(m & g & before & after & _ & Hd & E)]; [exact E|].
    exfalso. apply H. now exists m, g, before, after.
Qed.

(** An incomplete array of elements without sized part has no sized part. *)
Lemma incomplete_array_has_no_sized_part T :
  ~ has_sized_part T -> ~ has_sized_part (T ++ " []").
Proof.
  intros HT (before & N & after & HN & E).
  destruct (is_decimal_cons N HN) as (d & N' & -> & Hd & HN').
  assert (Hspace : is_digit " " = false) by reflexivity.
  assert (Hclose : is_digit "]" = false) by reflexivity.
  destruct (append_split _ _ _ _ E) as [(x & -> & Ex)|(x & -> & Ex)].
  - destruct x as [|x0 [|x1 [|x2 [|x3 x]]]]; simpl in Ex; try discriminate Ex.
    injection Ex as Ed _. rewrite <- Ed in Hd. congruence.
  - simpl in Ex. destruct x as [|x0 [|x1 x]]; simpl in Ex.
    + injection Ex as Ed _. rewrite Ed in Hd. congruence.
    + injection Ex as _ Ex. discriminate Ex.
    + injection Ex as <- <- Ex.
      assert (Ex' : ((String d N' ++ "]") ++ after)%string
                    = (x ++ " []")%string)
        by (rewrite append_assoc; exact Ex).
      clear Ex. rename Ex' into Ex.
      assert (Hds : string_forall is_digit (String d N') = true)
        by (simpl; now rewrite Hd).
      destruct (append_split _ _ _ _ Ex) as [(y & -> & _)|(y & Ey & Ey')].
      * apply HT. exists before, (String d N'), y. split; [exact HN|].
        now rewrite append_assoc.
      * destruct (number_bracket_suffix (String d N') x y Hds Ey)
          as [->|[->|(c & y' & -> & Hc)]].
        -- apply HT. exists before, (String d N'), EmptyString.
           split; [exact HN|]. rewrite append_empty_r in Ey. rewrite <- Ey.
           reflexivity.
        -- discriminate Ey'.
        -- simpl in Ey'. injection Ey' as Ec _. rewrite <- Ec in Hc.
           congruence.
Qed.

(** C9, as amended.  On a spelling [T [N]], with no line feed in [T] and a
    decimal number [N] that [util.Atoi] reads, [GetArrayTypeAndSize] returns
    [T] and the number.  It returns the empty string and -1 exactly on the
    spellings that hold no part [ [N]] at all, among them the incomplete
    array [T []] of such a [T]: the pattern is looked for anywhere in the
    spelling. *)
Theorem GetArrayTypeAndSize_spec :
  (forall s T N size,
      sized_array_spelling s T N ->
      string_forall (class_matches AnyChar) T = true ->
      Atoi N = Returns size ->
      GetArrayTypeAndSize s = Returns (T, size))
  /\ (forall s,
        GetArrayTypeAndSize s = Returns (EmptyString, -1)
        <-> ~ has_sized_part s)
  /\ (forall T,
        ~ has_sized_part T ->
        GetArrayTypeAndSize (T ++ " []") = Returns (EmptyString, -1)).
Proof.
  assert (Hnil : forall s, ~ has_sized_part s ->
                           GetArrayTypeAndSize s = Returns (EmptyString, -1)).
  { intros s H. apply find_sized_array_nil in H.
    unfold GetArrayTypeAndSize. now rewrite H. }
  repeat split.
  - intros s T N size [HN ->] HT HA. unfold GetArrayTypeAndSize.
    rewrite (FindStringSubmatch_here re_sized_array _ _ _
               (match_here_sized_array T N HT HN)).
    simpl. now rewrite HA.
  - intros H Hpart. apply has_sized_part_denotes in Hpart.
    destruct Hpart as (m0 & g0 & before & after & Hd0 & ->).
    pose proof (FindStringSubmatch_complete re_sized_array m0 g0 before after
                  Hd0) as Hfound.
    destruct (FindStringSubmatch_sound re_sized_array
                (before ++ m0 ++ after))
      as [E|(m & g & _ & _ & E & Hd & _)]; [contradiction|].
    destruct (denotes_sized_array m g Hd) as (T & N & HN & _ & ->).
    unfold GetArrayTypeAndSize in H. rewrite E in H. simpl in H.
    destruct (Atoi N) as [size|why] eqn:HA; [|discriminate].
    injection H as _ H. apply (Atoi_decimal N size HN) in HA. lia.
  - apply Hnil.
  - intros T HT. apply Hnil. now apply incomplete_array_has_no_sized_part.
Qed.

(** ** [GetArrayTypeAndSize], beyond the spellings [T [N]] *)

(** What the pattern denotes, with the line the element type stays on. *)
Lemma denotes_sized_array_line m groups :
  denotes re_sized_array m groups ->
  exists T N,
    string_forall (class_matches AnyChar) T = true
    /\ is_decimal N = true
    /\ m = (T ++ " [" ++ N ++ "]")%string /\ groups = [T; N].
Proof.
  unfold re_sized_array. simpl. intros H.
  inversion H as [| | ? ? ? T m1 g1 HT H1 |]; subst; clear H.
  inversion H1 as [| ? ? ? m2 g2 Hc2 H2 | |]; subst; clear H1.
  inversion H2 as [| ? ? ? m3 g3 Hc3 H3 | |]; subst; clear H2.
  inversion H3 as [| | | ? ? ? d N' m4 g4 HN H4]; subst; clear H3.
  inversion H4 as [| ? ? ? m5 g5 Hc5 H5 | |]; subst; clear H4.
  inversion H5; subst; clear H5.
  simpl in Hc2, Hc3, Hc5.
  apply Ascii.eqb_eq in Hc2, Hc3, Hc5. subst.
  exists T, (String d N'). repeat split; trivial.
Qed.

(** The pattern on a sized spelling followed by text without any space,
    such as further dimensions. *)
Lemma match_here_sized_array_rest T N rest :
  string_forall (class_matches AnyChar) T = true ->
  is_decimal N = true ->
  string_forall (fun c => negb (Ascii.eqb c " ")) rest = true ->
  match_here re_sized_array (T ++ " [" ++ N ++ "]" ++ rest)
  = Some ((T ++ " [" ++ N ++ "]")%string, [T; N]).
Proof.
  intros HT HN Hrest.
  set (K := lit " [" ++ Plus Digit true :: lit "]").
  assert (HK : match_here K (" [" ++ N ++ "]" ++ rest)
               = Some ((" [" ++ N ++ "]")%string, [N])).
  { unfold K. rewrite (match_here_lit " [").
    now rewrite (match_here_number (lit "]") N ("]" ++ rest) "]" [] HN). }
  assert (Hin : repeat_greedy AnyChar (match_here K)
                  (" [" ++ N ++ "]" ++ rest)
                = Some (EmptyString, ((" [" ++ N ++ "]")%string, [N]))).
  { change (" [" ++ N ++ "]" ++ rest)%string
      with (String " " ("[" ++ N ++ "]" ++ rest)) at 1.
    cbn [repeat_greedy class_matches].
    replace (negb (Ascii.eqb " " newline)) with true by reflexivity.
    rewrite repeat_greedy_none.
    - change (String " " ("[" ++ N ++ "]" ++ rest))%string
        with (" [" ++ N ++ "]" ++ rest)%string.
      now rewrite HK.
    - intros a b E.
      assert (Hb : string_forall (fun c => negb (Ascii.eqb c " ")) b = true).
      { apply (string_forall_suffix _ ("[" ++ N ++ "]" ++ rest)%string a b);
          [|exact E].
        simpl. rewrite string_forall_app. simpl. rewrite Hrest, andb_true_r.
        apply is_decimal_digits in HN. clear -HN.
        induction N as [|d N IH]; simpl in *; [reflexivity|].
        apply andb_prop in HN. destruct HN as [Hd HN].
        destruct (digit_not_punct d Hd) as (-> & _). simpl. now apply IH. }
      unfold K. destruct b as [|c b]; simpl; [reflexivity|].
      simpl in Hb. apply andb_prop in Hb. destruct Hb as [Hc _].
      apply negb_true_iff in Hc. now rewrite Hc. }
  change re_sized_array with (Star AnyChar true :: K).
  cbn [match_here].
  rewrite (repeat_greedy_prefix AnyChar (match_here K) T _ _ _ HT Hin).
  now rewrite append_empty_r.
Qed.

(** X1.  Whatever [GetArrayTypeAndSize] returns is backed by the spelling:
    the empty string and -1 when the spelling holds no sized part, and
    otherwise an element type [T] and a size that stand in the spelling as
    [T [N]], with [T] on one line and the size, never negative, read in the
    decimal number [N]. *)
Theorem GetArrayTypeAndSize_found s T size :
  GetArrayTypeAndSize s = Returns (T, size) ->
  (T = EmptyString /\ size = -1 /\ ~ has_sized_part s)
  \/ (exists before N after,
        s = (before ++ T ++ " [" ++ N ++ "]" ++ after)%string
        /\ string_forall (class_matches AnyChar) T = true
        /\ is_decimal N = true
        /\ Atoi N = Returns size
        /\ 0 <= size).
Proof.
  unfold GetArrayTypeAndSize.
  destruct (FindStringSubmatch_sound re_sized_array s)
    as [E|(m & g & before & after & E & Hd & Hs)].
  - rewrite E. simpl. intros H. injection H as <- <-. left.
    repeat split. now apply find_sized_array_nil.
  - rewrite E.
    destruct (denotes_sized_array_line m g Hd) as (T' & N & HT & HN & -> & ->).
    simpl. destruct (Atoi N) as [n|why] eqn:HA; [|discriminate].
    intros H. injection H as -> ->. right.
    exists before, N, after. repeat split; trivial.
    + rewrite Hs. now rewrite !append_assoc.
    + now apply (Atoi_decimal N size HN).
Qed.

(** X2.  [GetArrayTypeAndSize] reads the groups of a match within their
    bounds: it never panics on an index.  When it panics, it is [util.Atoi]
    that refuses the decimal number found in the spelling. *)
Theorem GetArrayTypeAndSize_panics s why :
  GetArrayTypeAndSize s = Panics why ->
  (forall site, why <> IndexOutOfRange site)
  /\ exists before T N after,
       s = (before ++ T ++ " [" ++ N ++ "]" ++ after)%string
       /\ is_decimal N = true
       /\ Atoi N = Panics why.
Proof.
  unfold GetArrayTypeAndSize.
  destruct (FindStringSubmatch_sound re_sized_array s)
    as [E|(m & g & before & after & E & Hd & Hs)]; rewrite E;
    [discriminate|].
  destruct (denotes_sized_array_line m g Hd) as (T & N & HT & HN & -> & ->).
  simpl. destruct (Atoi N) as [n|why'] eqn:HA; [discriminate|].
  intros H. injection H as ->. split.
  - intros site ->. unfold Atoi in HA.
    destruct (strconv_Atoi N); discriminate HA.
  - exists before, T, N, after. repeat split; trivial.
    rewrite Hs. now rewrite !append_assoc.
Qed.

(** X3.  On a spelling [T [N]] followed by text without any space, such as
    the further dimensions of [T [N][M]], [GetArrayTypeAndSize] returns [T]
    and the first size [N]: the later dimensions are dropped. *)
Theorem GetArrayTypeAndSize_outer_dimension T N rest size :
  string_forall (class_matches AnyChar) T = true ->
  is_decimal N = true ->
  string_forall (fun c => negb (Ascii.eqb c " ")) rest = true ->
  Atoi N = Returns size ->
  GetArrayTypeAndSize (T ++ " [" ++ N ++ "]" ++ rest) = Returns (T, size).
Proof.
  intros HT HN Hrest HA. unfold GetArrayTypeAndSize.
  rewrite (FindStringSubmatch_here re_sized_array _ _ _
             (match_here_sized_array_rest T N rest HT HN Hrest)).
  simpl. now rewrite HA.
Qed.

(** ** [CastExpr] *)

Section CastProperties.

Variable env : Collaborators.

(** After rule 1 and the two resolutions, [CastExpr] is its rules on the
    resolved spellings. *)
Lemma CastExpr_resolved p e f t p' ft tt :
  t <> "void *" ->
  resolve_both env p f t p' ft tt ->
  CastExpr env p e f t = cast_rules env p' e ft tt.
Proof.
  intros Hv (p1 & H1 & H2). unfold CastExpr.
  apply String.eqb_neq in Hv. now rewrite Hv, H1, H2.
Qed.

(** An empty resolved spelling on either side gives the expression back. *)
Lemma cast_rules_empty p e ft tt :
  ft = EmptyString \/ tt = EmptyString -> cast_rules env p e ft tt = ret p e.
Proof.
  intros [->| ->]; unfold cast_rules; simpl; [reflexivity|].
  rewrite !andb_false_r, orb_true_r. reflexivity.
Qed.

(** The first byte of a non-empty spelling. *)
Lemma get_first s :
  (s == "") = false ->
  exists c, String.get 0 s = Some c /\ first_byte_is "*" s = Ascii.eqb c "*".
Proof.
  destruct s as [|c s]; [discriminate|]. intros _. now exists c.
Qed.

(** The rules never report an error and never index out of range: they
    return, or refuse a conversion between strings and byte sequences. *)
Lemma cast_rules_no_error p e ft tt :
  no_error ft tt (snd (cast_rules env p e ft tt)).
Proof.
  unfold cast_rules. cbv zeta.
  repeat match goal with
         | |- no_error _ _ (snd (if ?c then ret _ _ else _)) =>
             destruct c eqn:?; [reflexivity|]
         end.
  destruct (range_types types e ft tt); [reflexivity|].
  match goal with
  | |- no_error _ _ (snd (if ?c then _ else _)) => destruct c eqn:Hstring
  end.
  { apply andb_prop in Hstring. destruct Hstring as [Hs _].
    apply String.eqb_eq in Hs.
    destruct e; simpl; auto. destruct (Unquote env Value); simpl; auto. }
  match goal with
  | |- no_error _ _ (snd (if ?c then _ else _)) => destruct c eqn:Hbytes
  end.
  { apply andb_prop in Hbytes. destruct Hbytes as [Hm Hs].
    apply String.eqb_eq in Hs.
    assert (Htext : exists text,
               (if Nat.ltb 0 (length (FindStringSubmatch re_byte_array ft))
                then index "match1[1]" (FindStringSubmatch re_byte_array ft) 1
                else index "match2[1]"
                       (FindStringSubmatch re_char_ptr_array ft) 1)
               = Returns text).
    { destruct (Nat.ltb 0 (length (FindStringSubmatch re_byte_array ft)))
        eqn:H1.
      - now apply index_of_match.
      - simpl in Hm. now apply index_of_match. }
    destruct Htext as [text ->].
    destruct (Atoi text) eqn:HA; simpl; auto.
    unfold Atoi in HA. destruct (strconv_Atoi text); [discriminate|].
    injection HA as <-. auto. }
  match goal with
  | H : (ft == "") || (tt == "") = false |- _ =>
      apply orb_false_elim in H; destruct H as [Hne _]
  end.
  destruct (get_first ft Hne) as (c & -> & _).
  repeat match goal with
         | |- no_error _ _ (snd (if ?c then ret _ _ else _)) =>
             destruct c eqn:?; [reflexivity|]
         end.
  reflexivity.
Qed.

(** The fallback: the rules when none of the earlier guards holds. *)
Lemma cast_rules_fallback p e ft tt :
  earlier_rule ft tt = false ->
  cast_rules env p e ft tt
  = ret (AddImport noarch_path p)
        (NewCallExpr (shim_name env ft tt) [e]).
Proof.
  unfold earlier_rule. intros H.
  repeat (apply orb_false_elim in H;
          let G := fresh "G" in destruct H as [H G]).
  unfold cast_rules. cbv zeta.
  rewrite H, G13, G12, G11, G10, G9, G8.
  rewrite (range_types_none types e ft tt G7).
  rewrite G6, G5.
  apply orb_false_elim in G11. destruct G11 as [Hne _].
  destruct (get_first ft Hne) as (c & -> & <-).
  now rewrite G4, G3, G2, G1, G0, G.
Qed.


(** C1, as amended.  When the source resolves to [null], the targets with a
    rule of their own are the four that [CastExpr] names: [[][]byte] and
    [[]byte] give [nil], [float64] gives the float literal zero and [bool]
    gives [false].  Any other target that is not empty, nor [null] itself,
    is left to the fallback, which calls the shim [noarch.NullTo<To>].  This
    holds for every expression, the one of the NULL macro among them. *)
Theorem null_conversions p e f t p' tt :
  t <> "void *" ->
  resolve_both env p f t p' "null" tt ->
  (tt = "[][]byte" \/ tt = "[]byte" -> CastExpr env p e f t = ret p' NewNil)
  /\ (tt = "float64" -> CastExpr env p e f t = ret p' (NewFloatLit 0))
  /\ (tt = "bool" -> CastExpr env p e f t = ret p' (NewIdent "false"))
  /\ (~ In tt [""; "null"; "[][]byte"; "[]byte"; "float64"; "bool"] ->
      CastExpr env p e f t
      = (AddImport noarch_path p',
         Returns (CallExpr
                    (Ident ("noarch." ++ GetExportedName env "null"
                            ++ "To" ++ GetExportedName env (strip_package tt)))
                    [e], None))).
Proof.
  intros Hv Hr. rewrite (CastExpr_resolved p e f t p' "null" tt Hv Hr).
  repeat split; [intros [->| ->]|intros ->|intros ->|]; try reflexivity.
  intros Hother. apply cast_rules_fallback.
  assert (Hne : forall x,
             In x [""; "null"; "[][]byte"; "[]byte"; "float64"; "bool"] ->
             (tt == x) = false).
  { intros x Hx. apply String.eqb_neq. intros ->. now apply Hother. }
  unfold earlier_rule. rewrite (String.eqb_sym "null" tt).
  rewrite (Hne ""), (Hne "null"), (Hne "[][]byte"), (Hne "[]byte"),
    (Hne "float64"), (Hne "bool") by (simpl; auto 10).
  reflexivity.
Qed.

(** C2.  A cast from a spelling to itself returns the expression unchanged
    and no error, whenever the spelling resolves, both times to the same
    spelling, empty or not. *)
Theorem cast_identity p e T p1 p2 s :
  ResolveType env p T = (p1, (s, None)) ->
  ResolveType env p1 T = (p2, (s, None)) ->
  snd (CastExpr env p e T T) = Returns (e, None).
Proof.
  intros H1 H2. unfold CastExpr.
  destruct (T == "void *"); [reflexivity|].
  rewrite H1, H2. unfold cast_rules. rewrite String.eqb_refl.
  destruct (String.eqb_spec s "null") as [->|_]; [reflexivity|].
  cbn [andb].
  destruct ((s == "") || (s == "")); [reflexivity|].
  now destruct ((s == "*_IO_FILE") && (s == "*noarch.File")).
Qed.

(** C5.  A source that resolves to an entry of the table of numeric types
    and aliases, cast to a target that resolves to [bool], becomes the
    comparison [e != 0]. *)
Theorem numeric_to_boolean p e f t p' ft :
  t <> "void *" ->
  resolve_both env p f t p' ft "bool" ->
  In ft types ->
  CastExpr env p e f t = ret p' (BinaryExpr e NEQ (NewIntLit 0)).
Proof.
  intros Hv Hr Hin. rewrite (CastExpr_resolved p e f t p' ft "bool" Hv Hr).
  unfold types in Hin. simpl in Hin.
  repeat (destruct Hin as [<-|Hin]; [reflexivity|]). destruct Hin.
Qed.

(** C6.  A source that resolves to a spelling beginning with [*], cast to a
    target that resolves to [bool], becomes the comparison [e != nil]. *)
Theorem pointer_to_boolean p e f t p' pointee :
  t <> "void *" ->
  resolve_both env p f t p' (String "*" pointee) "bool" ->
  CastExpr env p e f t = ret p' (BinaryExpr e NEQ NewNil).
Proof.
  intros Hv Hr. rewrite (CastExpr_resolved p e f t p' _ "bool" Hv Hr).
  unfold cast_rules. cbv zeta.
  generalize (FindStringSubmatch re_byte_array (String "*" pointee)).
  generalize (FindStringSubmatch re_char_ptr_array (String "*" pointee)).
  intros m2 m1. simpl. now rewrite !andb_false_r.
Qed.


(** C3.  A string literal whose source spelling resolves to [string], cast
    to a target that resolves to [[]byte] or to [char *[N]], becomes a
    composite literal of type [[]byte]: the character literal of each byte
    of the unquoted string, in order, and then the integer literal 0. *)
Theorem string_to_byte_sequence p e f t p' tt kind value text :
  t <> "void *" ->
  resolve_both env p f t p' "string" tt ->
  tt = "[]byte"
  \/ (exists N, is_decimal N = true /\ tt = ("char *[" ++ N ++ "]")%string) ->
  e = BasicLit kind value ->
  Unquote env value = Some text ->
  CastExpr env p e f t
  = ret p' (CompositeLit
              (Some (ArrayType None (NewTypeIdent "byte")))
              (map (fun c => BasicLit CHAR (QuoteByte env c))
                   (list_ascii_of_string text)
               ++ [NewIntLit 0])).
Proof.
  intros Hv Hr Htt -> HU.
  rewrite (CastExpr_resolved p _ f t p' "string" tt Hv Hr).
  unfold cast_rules. cbv zeta.
  destruct Htt as [->|(N & HN & ->)].
  - simpl. now rewrite HU.
  - rewrite (find_char_ptr_array N HN).
    generalize (FindStringSubmatch re_byte_slice ("char *[" ++ N ++ "]")).
    intros m1. simpl. rewrite orb_true_r. now rewrite HU.
Qed.

(** C4.  A source that resolves to [[N]byte] or to [char *[N]], cast to a
    target that resolves to [string], becomes [string(e[:N-1])], where the
    number is the one [util.Atoi] reads in [N]. *)
Theorem byte_sequence_to_string p e f t p' ft N size :
  t <> "void *" ->
  resolve_both env p f t p' ft "string" ->
  is_decimal N = true ->
  ft = ("[" ++ N ++ "]byte")%string \/ ft = ("char *[" ++ N ++ "]")%string ->
  Atoi N = Returns size ->
  CastExpr env p e f t
  = ret p' (NewCallExpr "string"
              [SliceExpr e None (Some (NewIntLit (size - 1))) None false]).
Proof.
  intros Hv Hr HN Hft HA.
  rewrite (CastExpr_resolved p e f t p' ft "string" Hv Hr).
  unfold cast_rules. cbv zeta.
  destruct Hft as [->| ->].
  - rewrite (find_byte_array N HN).
    generalize (FindStringSubmatch re_char_ptr_array ("[" ++ N ++ "]byte")).
    intros m2. simpl. now rewrite HA.
  - rewrite (find_byte_array_in_char_ptr_array N HN).
    rewrite (find_char_ptr_array N HN).
    simpl. now rewrite HA.
Qed.




(** C8, as amended.  [CastExpr] returns an error only when the resolution
    of the source or of the target fails, and then with the expression
    unchanged.  When both resolve it returns no error: it returns an
    expression, or it panics in one of the two rules between strings and
    byte sequences; for other spellings it always returns. *)
Theorem errors_come_from_resolution p e f t :
  (forall p' e' err,
      CastExpr env p e f t = (p', Returns (e', Some err)) ->
      e' = e
      /\ ((exists s, ResolveType env p f = (p', (s, Some err)))
          \/ (exists p1 ft s,
                ResolveType env p f = (p1, (ft, None))
                /\ ResolveType env p1 t = (p', (s, Some err)))))
  /\ (forall p' ft tt,
        t <> "void *" ->
        resolve_both env p f t p' ft tt ->
        no_error ft tt (snd (CastExpr env p e f t))
        /\ (ft <> "string" -> tt <> "string" ->
            exists e', snd (CastExpr env p e f t) = Returns (e', None))).
Proof.
  split.
  - intros p' e' err. unfold CastExpr.
    destruct (t == "void *"); [discriminate|].
    destruct (ResolveType env p f) as [p1 [ft [err1|]]] eqn:E1.
    { intros H. injection H as <- <- <-. split; eauto. }
    destruct (ResolveType env p1 t) as [p2 [tt [err2|]]] eqn:E2.
    { intros H. injection H as <- <- <-. split; [trivial|right]. eauto. }
    intros H. pose proof (cast_rules_no_error p2 e ft tt) as Hn.
    rewrite H in Hn. discriminate Hn.
  - intros p' ft tt Hv Hr.
    rewrite (CastExpr_resolved p e f t p' ft tt Hv Hr).
    pose proof (cast_rules_no_error p' e ft tt) as Hn. split; [exact Hn|].
    intros Hf Ht.
    destruct (cast_rules env p' e ft tt) as [p2 [[e' err]|why]]; simpl in *.
    + subst err. now exists e'.
    + destruct Hn as [_ [?|?]]; contradiction.
Qed.

(** C10.  [CastExpr] never panics on an index: the read of the first byte
    of the resolved source spelling, like the reads of the groups of a
    match, finds its element.  The rules have returned the expression
    before that read when either resolved spelling is empty. *)
Theorem first_byte_read_is_safe p e f t :
  (forall site, snd (CastExpr env p e f t) <> Panics (IndexOutOfRange site))
  /\ (forall p' ft tt,
        t <> "void *" ->
        resolve_both env p f t p' ft tt ->
        ft = EmptyString \/ tt = EmptyString ->
        CastExpr env p e f t = ret p' e).
Proof.
  split.
  - intros site. unfold CastExpr.
    destruct (t == "void *"); [discriminate|].
    destruct (ResolveType env p f) as [p1 [ft [err1|]]]; [discriminate|].
    destruct (ResolveType env p1 t) as [p2 [tt [err2|]]]; [discriminate|].
    intros H. pose proof (cast_rules_no_error p2 e ft tt) as Hn.
    rewrite H in Hn. destruct Hn as [Hn _]. discriminate Hn.
  - intros p' ft tt Hv Hr Hempty.
    rewrite (CastExpr_resolved p e f t p' ft tt Hv Hr).
    now apply cast_rules_empty.
Qed.

(** The rules leave the Program Context as it is, the fallback apart. *)
Lemma cast_rules_context p e ft tt :
  fst (cast_rules env p e ft tt)
  = if earlier_rule ft tt then p else AddImport noarch_path p.
Proof.
  destruct (earlier_rule ft tt) eqn:He;
    [|now rewrite (cast_rules_fallback p e ft tt He)].
  unfold cast_rules. cbv zeta.
  repeat match goal with
         | |- fst (if ?c then ret _ _ else _) = _ =>
             destruct c eqn:?; [reflexivity|]
         end.
  destruct (range_types types e ft tt) eqn:Hrange; [reflexivity|].
  match goal with
  | |- fst (if ?c then _ else _) = _ => destruct c eqn:Hstring
  end.
  { destruct e; try reflexivity. now destruct (Unquote env Value). }
  match goal with
  | |- fst (if ?c then _ else _) = _ => destruct c eqn:Hbytes
  end.
  { match goal with
    | |- fst (match ?d with _ => _ end) = _ => destruct d; [|reflexivity]
    end.
    now destruct (Atoi a). }
  destruct (String.get 0 ft) as [first|] eqn:Hget; [|reflexivity].
  repeat match goal with
         | |- fst (if ?c then ret _ _ else _) = _ =>
             destruct c eqn:?; [reflexivity|]
         end.
  exfalso.
  assert (Hloop : InStrings ft types && (tt == "bool") = false).
  { destruct (InStrings ft types && (tt == "bool")) eqn:E; [|reflexivity].
    rewrite (range_types_some types e ft tt E) in Hrange. discriminate. }
  assert (Hfirst : first_byte_is "*" ft && (tt == "bool") = false)
    by (unfold first_byte_is; now rewrite Hget).
  unfold earlier_rule in He.
  rewrite Hloop, Hstring, Hbytes, Hfirst in He.
  repeat match goal with
         | H : ?g = false |- _ => rewrite H in He; clear H
         end.
  discriminate He.
Qed.

(** X4.  Between two different entries of the table of numeric types and
    aliases, the cast is the conversion [to(e)] with the resolved target as
    the function. *)
Theorem numeric_to_numeric p e f t p' ft tt :
  t <> "void *" ->
  resolve_both env p f t p' ft tt ->
  In ft types -> In tt types -> ft <> tt ->
  CastExpr env p e f t = ret p' (CallExpr (Ident tt) [e]).
Proof.
  intros Hv Hr Hf Ht Hne. rewrite (CastExpr_resolved p e f t p' ft tt Hv Hr).
  unfold types in Hf, Ht. simpl in Hf, Ht.
  repeat (destruct Hf as [<-|Hf];
          [repeat (destruct Ht as [<-|Ht];
                   [first [reflexivity|now elim Hne]|]); destruct Ht|]).
  destruct Hf.
Qed.

(** X5.  The rule from strings to byte sequences applies to every resolved
    target that holds [[]byte] or a part [char *[N]] anywhere, [[][]byte]
    included.  It returns the literal of the bytes and a final 0 for a
    literal that unquotes, and panics otherwise: on the type assertion for an
    expression that is no literal, with its own message for a literal that
    does not unquote. *)
Theorem string_rule_outcome p e f t p' tt :
  t <> "void *" ->
  resolve_both env p f t p' "string" tt ->
  (exists a b, tt = (a ++ "[]byte" ++ b)%string)
  \/ (exists a N b, is_decimal N = true
                    /\ tt = (a ++ "char *[" ++ N ++ "]" ++ b)%string) ->
  CastExpr env p e f t
  = (p', match e with
         | BasicLit _ Value =>
             match Unquote env Value with
             | Some text =>
                 Returns (CompositeLit
                            (Some (ArrayType None (Ident "byte")))
                            (map (fun c => BasicLit CHAR (QuoteByte env c))
                                 (list_ascii_of_string text)
                             ++ [BasicLit INT "0"]), None)
             | None => Panics (FailedToUnquote Value)
             end
         | _ => Panics TypeAssertion
         end).
Proof.
  intros Hv Hr Htt.
  rewrite (CastExpr_resolved p e f t p' "string" tt Hv Hr).
  assert (Hfound :
            Nat.ltb 0 (length (FindStringSubmatch re_byte_slice tt))
            || Nat.ltb 0 (length (FindStringSubmatch re_char_ptr_array tt))
            = true).
  { destruct Htt as [(a & b & ->)|(a & N & b & HN & ->)].
    - assert (Hd : denotes re_byte_slice "[]byte" [])
        by (unfold re_byte_slice; simpl; repeat constructor).
      pose proof (FindStringSubmatch_complete re_byte_slice _ _ a b Hd) as H.
      destruct (FindStringSubmatch re_byte_slice (a ++ "[]byte" ++ b));
        [contradiction|reflexivity].
    - destruct (is_decimal_cons N HN) as (d & N' & -> & Hd & HN').
      assert (Hden : denotes re_char_ptr_array
                       ("char *[" ++ String d N' ++ "]") [String d N']).
      { unfold re_char_ptr_array. simpl.
        repeat (constructor; [reflexivity|]).
        apply (denotes_plus Digit true (lit "]") d N' "]" []);
          [simpl; now rewrite Hd|].
        apply (denotes_one (Byte "]") "]"); [reflexivity|constructor]. }
      pose proof (FindStringSubmatch_complete re_char_ptr_array _ _ a b Hden)
        as H.
      replace (a ++ "char *[" ++ String d N' ++ "]" ++ b)%string
        with (a ++ ("char *[" ++ String d N' ++ "]") ++ b)%string
        by (simpl; now rewrite append_assoc).
      destruct (FindStringSubmatch re_char_ptr_array
                  (a ++ ("char *[" ++ String d N' ++ "]") ++ b));
        [contradiction|apply orb_true_r]. }
  assert (Hne : (tt == "") = false /\ ("string" == tt) = false).
  { split; apply String.eqb_neq; intros E; [|symmetry in E]; subst tt;
      discriminate Hfound. }
  destruct Hne as [Hempty Hsame].
  unfold cast_rules. cbv zeta.
  rewrite Hfound, Hempty, Hsame. simpl.
  destruct e; try reflexivity. now destruct (Unquote env Value).
Qed.

(** X6.  Every rule but the fallback leaves the Program Context exactly as
    the two resolutions left it, also the rule that emits the call of
    [noarch.CStringIsNull] and the rules that panic; the fallback adds the
    import of [noarch] and nothing else. *)
Theorem context_after_cast p e f t p' ft tt :
  t <> "void *" ->
  resolve_both env p f t p' ft tt ->
  fst (CastExpr env p e f t)
  = (if earlier_rule ft tt then p' else AddImport noarch_path p')
  /\ typedefs (fst (CastExpr env p e f t)) = typedefs p'
  /\ (forall path, In path (imports (fst (CastExpr env p e f t))) ->
                   In path (imports p') \/ path = noarch_path).
Proof.
  intros Hv Hr. rewrite (CastExpr_resolved p e f t p' ft tt Hv Hr).
  rewrite cast_rules_context.
  destruct (earlier_rule ft tt); repeat split; auto;
    unfold AddImport; destruct (InStrings noarch_path (imports p'));
    simpl; auto.
  intros path H. apply in_app_or in H. destruct H as [H|[H|[]]]; auto.
Qed.

(** X7.  [CastExpr] returns an error exactly when the target is not
    [void *] and a resolution fails: the error is that of the source, or
    that of the target when the source resolves; the expression comes back
    unchanged and the context is the one the failed resolution left. *)
Theorem error_exactly_from_resolution p e f t p' e' err :
  CastExpr env p e f t = (p', Returns (e', Some err))
  <-> t <> "void *" /\ e' = e
      /\ ((exists s, ResolveType env p f = (p', (s, Some err)))
          \/ (exists p1 ft s,
                ResolveType env p f = (p1, (ft, None))
                /\ ResolveType env p1 t = (p', (s, Some err)))).
Proof.
  unfold CastExpr. split.
  - destruct (String.eqb_spec t "void *") as [->|Hv]; [discriminate|].
    destruct (ResolveType env p f) as [p1 [ft [err1|]]] eqn:E1.
    { intros H. injection H as <- <- <-. repeat split; eauto. }
    destruct (ResolveType env p1 t) as [p2 [tt [err2|]]] eqn:E2.
    { intros H. injection H as <- <- <-. repeat split; trivial.
      right. eauto. }
    intros H. pose proof (cast_rules_no_error p2 e ft tt) as Hn.
    rewrite H in Hn. discriminate Hn.
  - intros (Hv & -> & [(s & H1)|(p1 & ft & s & H1 & H2)]);
      apply String.eqb_neq in Hv; rewrite Hv, H1; [reflexivity|].
    now rewrite H2.
Qed.

(** X8.  The rules for fixed pairs of resolved spellings: a byte sequence as
    a condition is [!noarch.CStringIsNull(e)]; an [int] cast to [*int] is
    [nil] and to [*byte] the empty string literal; [_Bool] to [bool] and
    [*_IO_FILE] to [*noarch.File] give the expression back.  None of them
    touches the Program Context. *)
Theorem fixed_conversions p e f t p' ft tt :
  t <> "void *" ->
  resolve_both env p f t p' ft tt ->
  (ft = "[]byte" -> tt = "bool" ->
   CastExpr env p e f t
   = ret p' (UnaryExpr NOT (CallExpr (Ident "noarch.CStringIsNull") [e])))
  /\ (ft = "int" -> tt = "*int" -> CastExpr env p e f t = ret p' NewNil)
  /\ (ft = "int" -> tt = "*byte" ->
      CastExpr env p e f t
      = ret p' (BasicLit STRING (String dquote (String dquote EmptyString))))
  /\ (ft = "_Bool" -> tt = "bool" -> CastExpr env p e f t = ret p' e)
  /\ (ft = "*_IO_FILE" -> tt = "*noarch.File" ->
      CastExpr env p e f t = ret p' e).
Proof.
  intros Hv Hr. rewrite (CastExpr_resolved p e f t p' ft tt Hv Hr).
  repeat split; intros -> ->; reflexivity.
Qed.

(** The rules return the expression they were given or build one that is
    no parenthesised literal. *)
Lemma cast_rules_keeps_or_builds p e ft tt :
  keeps_or_builds e (snd (cast_rules env p e ft tt)).
Proof.
  unfold cast_rules. cbv zeta.
  repeat match goal with
         | |- keeps_or_builds _ (snd (if ?c then ret _ _ else _)) =>
             destruct c; [simpl; auto|]
         end.
  destruct (range_types types e ft tt) as [comparison|] eqn:Hrange.
  { simpl. right. clear -Hrange. induction types as [|v vs IH]; simpl in *;
      [discriminate|].
    destruct ((ft == v) && (tt == "bool"));
      [now injection Hrange as <-|auto]. }
  match goal with
  | |- keeps_or_builds _ (snd (if ?c then _ else _)) => destruct c
  end.
  { destruct e; simpl; auto. destruct (Unquote env Value); simpl; auto. }
  match goal with
  | |- keeps_or_builds _ (snd (if ?c then _ else _)) => destruct c
  end.
  { match goal with
    | |- keeps_or_builds _ (snd (match ?d with _ => _ end)) =>
        destruct d; simpl; auto
    end.
    destruct (Atoi a); simpl; auto. }
  destruct (String.get 0 ft); simpl; auto.
  repeat match goal with
         | |- keeps_or_builds _ (snd (if ?c then ret _ _ else _)) =>
             destruct c; [simpl; auto|]
         end.
  simpl. auto.
Qed.

(** X11.  [CastExpr] never makes up an expression of the NULL macro: a
    result that [IsNullExpr] recognises is the expression that was given. *)
Theorem cast_builds_no_null p e f t e' err :
  snd (CastExpr env p e f t) = Returns (e', err) ->
  IsNullExpr e' = true ->
  e' = e.
Proof.
  unfold CastExpr.
  destruct (t == "void *"); [intros H; now injection H as <- _|].
  destruct (ResolveType env p f) as [p1 [ft [err1|]]];
    [intros H; now injection H as <- _|].
  destruct (ResolveType env p1 t) as [p2 [tt [err2|]]];
    [intros H; now injection H as <- _|].
  intros H Hnull. pose proof (cast_rules_keeps_or_builds p2 e ft tt) as Hk.
  rewrite H in Hk. destruct Hk as [Hk|Hk]; [exact Hk|congruence].
Qed.

End CastProperties.

(** ** The fallback and the packages of the names *)

Lemma contains_byte_app c a b :
  contains_byte c (a ++ b) = contains_byte c a || contains_byte c b.
Proof.
  induction a as [|x a IH]; simpl; [reflexivity|].
  now rewrite IH, orb_assoc.
Qed.

(** The pieces of a qualified name: some pieces, and the name last. *)
Lemma Split_qualified package name sep :
  contains_byte sep name = false ->
  exists first others,
    Split (package ++ String sep name) sep = (first :: others) ++ [name].
Proof.
  intros Hname. induction package as [|c package IH]; simpl.
  - rewrite Ascii.eqb_refl, (Split_no_sep name sep Hname).
    now exists EmptyString, [].
  - destruct IH as (first & others & ->).
    destruct (Ascii.eqb c sep).
    + now exists EmptyString, (first :: others).
    + now exists (String c first), others.
Qed.

(** [strip_package] gives the name of a spelling that is the name itself or
    a package, a dot and the name. *)
Lemma strip_package_name full name :
  contains_byte "." name = false ->
  full = name \/ (exists package, full = (package ++ "." ++ name)%string) ->
  strip_package full = name.
Proof.
  intros Hname [->|(package & ->)]; unfold strip_package.
  - now rewrite Hname.
  - rewrite contains_byte_app. simpl. rewrite orb_true_r.
    destruct (Split_qualified package name "." Hname) as (first & others & E).
    change ("." ++ name)%string with (String "." name).
    rewrite E, length_app. cbn [length]. rewrite Nat.add_sub.
    rewrite app_nth2 by apply Nat.le_refl. now rewrite Nat.sub_diag.
Qed.

(** X9.  Only the names after the last dot reach the shim of the fallback:
    whatever the packages of the two resolved spellings, or without any, the
    call is [noarch.<From>To<To>(e)] on the exported forms of the two bare
    names. *)
Theorem fallback_drops_packages env p e f t p' ft tt fromName toName :
  t <> "void *" ->
  resolve_both env p f t p' ft tt ->
  earlier_rule ft tt = false ->
  contains_byte "." fromName = false ->
  contains_byte "." toName = false ->
  ft = fromName \/ (exists package, ft = (package ++ "." ++ fromName)%string) ->
  tt = toName \/ (exists package, tt = (package ++ "." ++ toName)%string) ->
  snd (CastExpr env p e f t)
  = Returns (CallExpr
               (Ident ("noarch." ++ GetExportedName env fromName
                       ++ "To" ++ GetExportedName env toName))
               [e], None).
Proof.
  intros Hv Hr He Hf Ht Hft Htt.
  rewrite (CastExpr_resolved env p e f t p' ft tt Hv Hr).
  rewrite (cast_rules_fallback env p' e ft tt He).
  unfold shim_name.
  now rewrite (strip_package_name ft fromName Hf Hft),
    (strip_package_name tt toName Ht Htt).
Qed.

(** ** The nodes of package [ast] *)

Section NodeProperties.

Variable Node : Type.
Variable groupsFromRegex : string -> string -> Outcome (string -> string).

Lemma Typedef_children (cs : list Node) :
  forall n : Typedef Node,
    let n' := fold_left Typedef_AddChild cs n in
    Typedef_Children n' = Typedef_Children n ++ cs
    /\ Typedef_Address n' = Typedef_Address n
    /\ Typedef_Type n' = Typedef_Type n.
Proof.
  induction cs as [|c cs IH]; intros n; simpl.
  - now rewrite app_nil_r.
  - destruct (IH (Typedef_AddChild n c)) as (H1 & H2 & H3).
    rewrite H1, H2, H3. simpl. now rewrite <- app_assoc.
Qed.

Lemma IncompleteArrayType_children (cs : list Node) :
  forall n : IncompleteArrayType Node,
    let n' := fold_left IncompleteArrayType_AddChild cs n in
    IncompleteArrayType_Children n' = IncompleteArrayType_Children n ++ cs
    /\ IncompleteArrayType_Address n' = IncompleteArrayType_Address n
    /\ IncompleteArrayType_Type n' = IncompleteArrayType_Type n.
Proof.
  induction cs as [|c cs IH]; intros n; simpl.
  - now rewrite app_nil_r.
  - destruct (IH (IncompleteArrayType_AddChild n c)) as (H1 & H2 & H3).
    rewrite H1, H2, H3. simpl. now rewrite <- app_assoc.
Qed.

Lemma MaxFieldAlignmentAttr_children (cs : list Node) :
  forall n : MaxFieldAlignmentAttr Node,
    let n' := fold_left MaxFieldAlignmentAttr_AddChild cs n in
    MaxFieldAlignmentAttr_Children n'
    = MaxFieldAlignmentAttr_Children n ++ cs
    /\ MaxFieldAlignmentAttr_Address n' = MaxFieldAlignmentAttr_Address n
    /\ MaxFieldAlignmentAttr_Position n' = MaxFieldAlignmentAttr_Position n
    /\ MaxFieldAlignmentAttr_Size n' = MaxFieldAlignmentAttr_Size n.
Proof.
  induction cs as [|c cs IH]; intros n; simpl.
  - now rewrite app_nil_r.
  - destruct (IH (MaxFieldAlignmentAttr_AddChild n c)) as (H1 & H2 & H3 & H4).
    rewrite H1, H2, H3, H4. simpl. now rewrite <- app_assoc.
Qed.

(** X10.  A node that one of the three decoders returns has no children, and
    [AddChild] only appends: after adding nodes one by one, the children of
    the decoded node are exactly the nodes added, in the order of the calls,
    and the attributes read from the line are as they were. *)
Theorem children_in_order_of_calls (line : string) (cs : list Node) :
  (forall n,
      parseTypedef Node groupsFromRegex line = Returns n ->
      let n' := fold_left Typedef_AddChild cs n in
      Typedef_Children n' = cs
      /\ Typedef_Address n' = Typedef_Address n
      /\ Typedef_Type n' = Typedef_Type n)
  /\ (forall n,
        parseIncompleteArrayType Node groupsFromRegex line = Returns n ->
        let n' := fold_left IncompleteArrayType_AddChild cs n in
        IncompleteArrayType_Children n' = cs
        /\ IncompleteArrayType_Address n' = IncompleteArrayType_Address n
        /\ IncompleteArrayType_Type n' = IncompleteArrayType_Type n)
  /\ (forall n,
        parseMaxFieldAlignmentAttr Node groupsFromRegex line = Returns n ->
        let n' := fold_left MaxFieldAlignmentAttr_AddChild cs n in
        MaxFieldAlignmentAttr_Children n' = cs
        /\ MaxFieldAlignmentAttr_Address n' = MaxFieldAlignmentAttr_Address n
        /\ MaxFieldAlignmentAttr_Position n'
           = MaxFieldAlignmentAttr_Position n
        /\ MaxFieldAlignmentAttr_Size n' = MaxFieldAlignmentAttr_Size n).
Proof.
  repeat split.
  - unfold parseTypedef in H.
    destruct (groupsFromRegex _ line); [|discriminate].
    injection H as <-. now rewrite (proj1 (Typedef_children cs _)).
  - apply Typedef_children.
  - apply Typedef_children.
  - unfold parseIncompleteArrayType in H.
    destruct (groupsFromRegex _ line); [|discriminate].
    injection H as <-. now rewrite (proj1 (IncompleteArrayType_children cs _)).
  - apply IncompleteArrayType_children.
  - apply IncompleteArrayType_children.
  - unfold parseMaxFieldAlignmentAttr in H.
    destruct (groupsFromRegex _ line); [|discriminate].
    destruct (Atoi _); [|discriminate].
    injection H as <-.
    now rewrite (proj1 (MaxFieldAlignmentAttr_children cs _)).
  - apply MaxFieldAlignmentAttr_children.
  - apply MaxFieldAlignmentAttr_children.
  - apply MaxFieldAlignmentAttr_children.
Qed.

End NodeProperties.

(* ================================================================== *)
(** * The casts on concrete programs                                   *)
(* ================================================================== *)

(** The sample resolver leaves the empty program as it is. *)
Ltac resolved_here := exists empty_program; split; reflexivity.

(** C1 as stated fails.  The NULL expression cast to a pointer other than
    the two byte sequences, here [int *], or to [string], is handed to the
    fallback: the result is a call of a [noarch] shim, neither [nil] nor the
    empty string literal. *)
Lemma null_to_pointer_or_string_is_a_shim_call :
  IsNullExpr null_expr = true
  /\ resolve_both sample empty_program "null" "int *"
       empty_program "null" "*int"
  /\ snd (sample_CastExpr empty_program null_expr "null" "int *")
     = Returns (CallExpr (Ident "noarch.NullTo*int") [null_expr], None)
  /\ snd (sample_CastExpr empty_program null_expr "null" "int *")
     <> Returns (NewNil, None)
  /\ resolve_both sample empty_program "null" "string"
       empty_program "null" "string"
  /\ snd (sample_CastExpr empty_program null_expr "null" "string")
     = Returns (CallExpr (Ident "noarch.NullToString") [null_expr], None)
  /\ snd (sample_CastExpr empty_program null_expr "null" "string")
     <> Returns (NewStringLit (String dquote (String dquote EmptyString)),
                 None).
Proof.
  repeat split; try resolved_here;
    vm_compute; discriminate.
Qed.

(** The NULL expression cast to [char *]. *)
Lemma null_conversions_witness :
  "char *" <> "void *"
  /\ resolve_both sample empty_program "null" "char *"
       empty_program "null" "[]byte"
  /\ sample_CastExpr empty_program null_expr "null" "char *"
     = ret empty_program NewNil.
Proof.
  assert (Hv : "char *" <> "void *") by discriminate.
  assert (Hr : resolve_both sample empty_program "null" "char *"
                 empty_program "null" "[]byte")
    by resolved_here.
  split; [exact Hv|split; [exact Hr|]].
  exact (proj1 (null_conversions sample empty_program null_expr
                  "null" "char *" empty_program "[]byte" Hv Hr)
               (or_intror eq_refl)).
Defined.

(** A pointer to [int] cast to its own type. *)
Lemma cast_identity_witness :
  sample_ResolveType empty_program "int *" = (empty_program, ("*int", None))
  /\ snd (sample_CastExpr empty_program (Ident "p") "int *" "int *")
     = Returns (Ident "p", None).
Proof.
  split; [reflexivity|].
  apply (cast_identity sample empty_program (Ident "p") "int *"
           empty_program empty_program "*int"); reflexivity.
Defined.

(** The literal of the spec's scenario 3, the argument of [printf]. *)
Lemma string_to_byte_sequence_witness :
  sample_Unquote (String dquote ("hello\n" ++ String dquote EmptyString))
  = Some ("hello" ++ String newline EmptyString)%string
  /\ sample_CastExpr empty_program (string_lit "hello\n") "string" "char *"
     = ret empty_program
         (CompositeLit (Some (ArrayType None (Ident "byte")))
            [BasicLit CHAR "'h'"; BasicLit CHAR "'e'"; BasicLit CHAR "'l'";
             BasicLit CHAR "'l'"; BasicLit CHAR "'o'"; BasicLit CHAR "'\n'";
             BasicLit INT "0"]).
Proof.
  split; [reflexivity|].
  apply (string_to_byte_sequence sample empty_program
           (string_lit "hello\n") "string" "char *" empty_program "[]byte"
           STRING (String dquote ("hello\n" ++ String dquote EmptyString))
           ("hello" ++ String newline EmptyString)%string).
  - discriminate.
  - resolved_here.
  - left. reflexivity.
  - reflexivity.
  - reflexivity.
Defined.

(** An array of six bytes read as a string. *)
Lemma byte_sequence_to_string_witness :
  Atoi "6" = Returns 6
  /\ sample_CastExpr empty_program (Ident "s") "char [6]" "string"
     = ret empty_program
         (CallExpr (Ident "string")
            [SliceExpr (Ident "s") None (Some (BasicLit INT "5")) None false]).
Proof.
  split; [reflexivity|].
  apply (byte_sequence_to_string sample empty_program (Ident "s")
           "char [6]" "string" empty_program "[6]byte" "6" 6).
  - discriminate.
  - resolved_here.
  - reflexivity.
  - left. reflexivity.
  - reflexivity.
Defined.

(** An [int] used as a condition. *)
Lemma numeric_to_boolean_witness :
  In "int" types
  /\ sample_CastExpr empty_program (Ident "x") "int" "_Bool"
     = ret empty_program (BinaryExpr (Ident "x") NEQ (BasicLit INT "0")).
Proof.
  assert (Hin : In "int" types) by (right; left; reflexivity).
  split; [exact Hin|].
  apply (numeric_to_boolean sample empty_program (Ident "x")
           "int" "_Bool" empty_program "int").
  - discriminate.
  - resolved_here.
  - exact Hin.
Defined.

(** The condition [if (p)] of the spec's scenario 4. *)
Lemma pointer_to_boolean_witness :
  sample_CastExpr empty_program (Ident "p") "int *" "_Bool"
  = ret empty_program (BinaryExpr (Ident "p") NEQ (Ident "nil")).
Proof.
  apply (pointer_to_boolean sample empty_program (Ident "p")
           "int *" "_Bool" empty_program "int").
  - discriminate.
  - resolved_here.
Defined.



(** C8 as stated fails.  Both spellings resolve, and the explicit panic of
    the rule from strings to byte sequences is reached: the literal [0] is no
    quoted string, so [CastExpr] returns neither an expression nor an
    error. *)
Lemma unquotable_literal_panics :
  resolve_both sample empty_program "string" "char *"
    empty_program "string" "[]byte"
  /\ sample_Unquote "0" = None
  /\ snd (sample_CastExpr empty_program (BasicLit INT "0") "string" "char *")
     = Panics (FailedToUnquote "0")
  /\ forall e' err,
       snd (sample_CastExpr empty_program (BasicLit INT "0") "string" "char *")
       <> Returns (e', err).
Proof.
  repeat split; try resolved_here.
  intros e' err. vm_compute. discriminate.
Qed.

(** A target that does not resolve, and one that does. *)
Lemma errors_come_from_resolution_witness :
  (sample_CastExpr empty_program (Ident "x") "int" "quux"
   = (empty_program, Returns (Ident "x", Some "cannot resolve type quux")) ->
   exists p1 ft s,
     sample_ResolveType empty_program "int" = (p1, (ft, None))
     /\ sample_ResolveType p1 "quux"
        = (empty_program, (s, Some "cannot resolve type quux")))
  /\ no_error "int" "bool"
       (snd (sample_CastExpr empty_program (Ident "x") "int" "_Bool"))
  /\ exists e',
       snd (sample_CastExpr empty_program (Ident "x") "int" "_Bool")
       = Returns (e', None).
Proof.
  split; [|split].
  - intros H.
    destruct (proj1 (errors_come_from_resolution sample empty_program
                     (Ident "x") "int" "quux") _ _ _ H)
      as [_ [[s Hs]|Hr]]; [discriminate Hs|exact Hr].
  - apply (proj2 (errors_come_from_resolution sample empty_program
                   (Ident "x") "int" "_Bool")
                 empty_program "int" "bool").
    + discriminate.
    + resolved_here.
  - apply (proj2 (errors_come_from_resolution sample empty_program
                   (Ident "x") "int" "_Bool")
                 empty_program "int" "bool").
    + discriminate.
    + resolved_here.
    + discriminate.
    + discriminate.
Defined.

(** C9 as stated fails.  The spelling of a two-dimensional array is not of
    the form [T [N]], and [GetArrayTypeAndSize] returns its first size with
    the innermost element type instead of the empty string and -1. *)
Lemma two_dimensions_are_not_a_sized_spelling :
  (forall T N, ~ sized_array_spelling "int [2][3]" T N)
  /\ GetArrayTypeAndSize "int [2][3]" = Returns ("int", 2)
  /\ GetArrayTypeAndSize "int [2][3]" <> Returns (EmptyString, -1).
Proof.
  split; [|split; [reflexivity|discriminate]].
  intros T N [HN E].
  do 3 (destruct T as [|? T]; simpl in E;
        [discriminate E|injection E as _ E]).
  destruct T as [|? T]; simpl in E.
  - injection E as E.
    destruct N as [|d [|c N]]; simpl in E; [discriminate E| |].
    + injection E as _ E. discriminate E.
    + injection E as Hd Hc _. subst d c. discriminate HN.
  - injection E as _ E.
    do 6 (destruct T as [|? T]; simpl in E;
          [discriminate E|injection E as _ E]).
    destruct T; discriminate E.
Qed.

(** An array of ten [int], and an incomplete array of [int]. *)
Lemma GetArrayTypeAndSize_spec_witness :
  sized_array_spelling "int [10]" "int" "10"
  /\ GetArrayTypeAndSize "int [10]" = Returns ("int", 10)
  /\ ~ has_sized_part "int"
  /\ GetArrayTypeAndSize ("int" ++ " []") = Returns (EmptyString, -1).
Proof.
  assert (Hform : sized_array_spelling "int [10]" "int" "10")
    by (split; reflexivity).
  assert (Hnone : ~ has_sized_part "int")
    by (apply find_sized_array_nil; reflexivity).
  split; [exact Hform|split; [|split; [exact Hnone|]]].
  - apply (proj1 GetArrayTypeAndSize_spec "int [10]" "int" "10" 10);
      [exact Hform|reflexivity|reflexivity].
  - apply (proj2 (proj2 GetArrayTypeAndSize_spec) "int" Hnone).
Defined.

(** A source that resolves to the empty spelling. *)
Lemma first_byte_read_is_safe_witness :
  resolve_both sample empty_program "void" "int"
    empty_program EmptyString "int"
  /\ sample_CastExpr empty_program (Ident "x") "void" "int"
     = ret empty_program (Ident "x")
  /\ snd (sample_CastExpr empty_program (Ident "x") "void" "int")
     <> Panics (IndexOutOfRange "fromType[0]").
Proof.
  assert (Hr : resolve_both sample empty_program "void" "int"
                 empty_program EmptyString "int")
    by resolved_here.
  split; [exact Hr|split].
  - apply (proj2 (first_byte_read_is_safe sample empty_program
                   (Ident "x") "void" "int")
                 empty_program EmptyString "int").
    + discriminate.
    + exact Hr.
    + left. reflexivity.
  - apply (proj1 (first_byte_read_is_safe sample empty_program
                   (Ident "x") "void" "int")).
Defined.

(** ** Further runs *)

(** X1 on the spelling of a two-dimensional array. *)
Lemma GetArrayTypeAndSize_found_witness :
  GetArrayTypeAndSize "int [2][3]" = Returns ("int", 2)
  /\ (("int" = EmptyString /\ 2 = -1 /\ ~ has_sized_part "int [2][3]")
      \/ (exists before N after,
            "int [2][3]" = (before ++ "int" ++ " [" ++ N ++ "]" ++ after)%string
            /\ string_forall (class_matches AnyChar) "int" = true
            /\ is_decimal N = true
            /\ Atoi N = Returns 2
            /\ 0 <= 2)).
Proof.
  split; [reflexivity|].
  exact (GetArrayTypeAndSize_found "int [2][3]" "int" 2 eq_refl).
Defined.

(** X2 on a size beyond [int]. *)
Lemma GetArrayTypeAndSize_panics_witness :
  GetArrayTypeAndSize "int [99999999999999999999]"
  = Panics (BadInteger "99999999999999999999")
  /\ forall site, BadInteger "99999999999999999999" <> IndexOutOfRange site.
Proof.
  split; [reflexivity|].
  exact (proj1 (GetArrayTypeAndSize_panics "int [99999999999999999999]"
                  (BadInteger "99999999999999999999") eq_refl)).
Defined.

(** X3 on an array of two rows of three [int]. *)
Lemma GetArrayTypeAndSize_outer_dimension_witness :
  GetArrayTypeAndSize ("int" ++ " [" ++ "2" ++ "]" ++ "[3]")
  = Returns ("int", 2).
Proof.
  apply (GetArrayTypeAndSize_outer_dimension "int" "2" "[3]" 2);
    reflexivity.
Defined.

(** X4: an [int] cast to [double]. *)
Lemma numeric_to_numeric_witness :
  sample_CastExpr empty_program (Ident "x") "int" "double"
  = ret empty_program (CallExpr (Ident "float64") [Ident "x"]).
Proof.
  apply (numeric_to_numeric sample empty_program (Ident "x") "int" "double"
           empty_program "int" "float64").
  - discriminate.
  - resolved_here.
  - right; left; reflexivity.
  - do 11 right. left. reflexivity.
  - discriminate.
Defined.

(** X5: a string variable cast to [char **], a target that holds [[]byte]. *)
Lemma string_rule_outcome_witness :
  sample_CastExpr empty_program (Ident "s") "string" "char **"
  = (empty_program, Panics TypeAssertion).
Proof.
  apply (string_rule_outcome sample empty_program (Ident "s")
           "string" "char **" empty_program "[][]byte").
  - discriminate.
  - resolved_here.
  - left. now exists "[]", EmptyString.
Defined.

(** X6: a byte sequence as a condition calls into [noarch] and leaves the
    imports empty. *)
Lemma context_after_cast_witness :
  earlier_rule "[]byte" "bool" = true
  /\ fst (sample_CastExpr empty_program (Ident "s") "char *" "_Bool")
     = empty_program.
Proof.
  split; [reflexivity|].
  apply (proj1 (context_after_cast sample empty_program (Ident "s")
                  "char *" "_Bool" empty_program "[]byte" "bool"
                  ltac:(discriminate) ltac:(resolved_here))).
Defined.

(** X7: a target that does not resolve. *)
Lemma error_exactly_from_resolution_witness :
  sample_CastExpr empty_program (Ident "x") "int" "quux"
  = (empty_program, Returns (Ident "x", Some "cannot resolve type quux")).
Proof.
  apply (proj2 (error_exactly_from_resolution sample empty_program
                  (Ident "x") "int" "quux" empty_program (Ident "x")
                  "cannot resolve type quux")).
  split; [discriminate|split; [reflexivity|right]].
  exists empty_program, "int", "interface{}". split; reflexivity.
Defined.

(** X8: a byte sequence as a condition. *)
Lemma fixed_conversions_witness :
  sample_CastExpr empty_program (Ident "s") "char *" "_Bool"
  = ret empty_program
      (UnaryExpr NOT (CallExpr (Ident "noarch.CStringIsNull") [Ident "s"])).
Proof.
  apply (proj1 (fixed_conversions sample empty_program (Ident "s")
                  "char *" "_Bool" empty_program "[]byte" "bool"
                  ltac:(discriminate) ltac:(resolved_here)));
    reflexivity.
Defined.

(** X9: the package of the target does not reach the name of the shim. *)
Lemma fallback_drops_packages_witness :
  snd (sample_CastExpr empty_program (Ident "x") "Foo" "pkg.Bar")
  = Returns (CallExpr (Ident "noarch.FooToBar") [Ident "x"], None).
Proof.
  apply (fallback_drops_packages sample empty_program (Ident "x")
           "Foo" "pkg.Bar" empty_program "Foo" "pkg.Bar" "Foo" "Bar").
  - discriminate.
  - resolved_here.
  - reflexivity.
  - reflexivity.
  - reflexivity.
  - left. reflexivity.
  - right. now exists "pkg".
Defined.

(** X10: three children added to a decoded typedef, the nodes being
    numbered. *)
Lemma children_in_order_of_calls_witness :
  parseTypedef nat sample_groupsFromRegex "0x7f8 'int'"
  = Returns (mkTypedef nat "0x7f8" "int" [])
  /\ Typedef_Children
       (fold_left Typedef_AddChild [1; 2; 3]%nat
          (mkTypedef nat "0x7f8" "int" []))
     = [1; 2; 3]%nat.
Proof.
  split; [reflexivity|].
  apply (proj1 (children_in_order_of_calls nat sample_groupsFromRegex
                  "0x7f8 'int'" [1; 2; 3]%nat)
               (mkTypedef nat "0x7f8" "int" []) eq_refl).
Defined.

(** X11: the NULL expression cast from [int] to [int] comes back. *)
Lemma cast_builds_no_null_witness :
  snd (sample_CastExpr empty_program null_expr "int" "int")
  = Returns (null_expr, None)
  /\ null_expr = null_expr.
Proof.
  split; [reflexivity|].
  apply (cast_builds_no_null sample empty_program null_expr "int" "int"
           null_expr None); reflexivity.
Defined.
